(** * cern.cpymad.libmadx: the low-level binding to MAD-X

    A shallow embedding of [src/cern/cpymad/libmadx.pyx] and the properties
    of its marshalling contract.

    Conventions of the embedding:
    - a C [int] is a [Z] and a C [char] the [Z] of its byte; a byte string
      is a [list Z] of values 0..255; a host (unicode) string is the
      [list Z] of its code points;
    - a [char*] is [option (list Z)]: [None] is NULL, [Some b] points at the
      bytes [b], read as a C string (up to the first NUL byte);
    - a C array is the [list] of the slots of its allocated block, next to
      the [curr] counter the structure keeps; reading a slot outside the
      block has no defined behaviour in C and is the outcome [NativeFault];
    - a host exception is a value of [exn]; a function that can raise
      returns a [result];
    - a Python [dict] is a [gmap]; its keys are host strings or [None];
    - Python's [float] on text, and what the compiler does with an
      exception raised in a [cdef] function that returns a C type, are
      parameters ([Host]). *)

From Stdlib Require Import ZArith QArith String Ascii List Lia.
From stdpp Require Import base option list gmap.

Set Warnings "-register-all,-clear-no-such-hyp".
Local Open Scope Z_scope.

(** ** Host values *)

Definition ustring : Type := list Z.
Definition bytes : Type := list Z.
Definition char_p : Type := option bytes.

(** A string literal of the source, as code points. *)
Definition u (s : string) : ustring :=
  List.map (fun a => Z.of_N (N_of_ascii a)) (list_ascii_of_string s).

(** A C [double] as the host sees it.  The finite values are kept as exact
    rationals in lowest terms; rounding to binary64 is not modelled. *)
Inductive double : Type :=
  | DFin (q : Q)
  | DInf (negative : bool)
  | DNaN.

(** The entries of [_expr_types = [bool, int, float]]. *)
Inductive expr_type : Type := Tbool | Tint | Tfloat.

(** Host objects.  Modelled from the spec: [Expression] and [Constraint] of
    cern.cpymad.types, which is not among the sources: a number with the
    text of the expression it was computed from, and a bound or target
    given by up to three such numbers. *)
Inductive value : Type :=
  | VNone
  | VBool (b : bool)
  | VInt (z : Z)
  | VFloat (d : double)
  | VStr (s : ustring)
  | VBytes (b : bytes)
  (* cern.cpymad.types.Expression(expr, value, type) *)
  | VExpression (expr : option ustring) (val : double) (type : expr_type)
  (* cern.cpymad.types.Constraint(val=None, min=None, max=None) *)
  | VConstraint (val min max : option value)
  | VList (l : list value).

Definition of_str (s : option ustring) : value :=
  match s with
  | None => VNone
  | Some s => VStr s
  end.

(** ** Exceptions *)

(** The text of an exception: the format string of the source and the
    arguments handed to [format], in order. *)
Record message : Type := Msg { template : string; args : list value }.

Inductive exn : Type :=
  | ValueError (m : message)
  | RuntimeError (m : message)
  | IndexError
  | OverflowError
  | AttributeError
  | UnicodeEncodeError
  | UnicodeDecodeError
  (* not a host exception: a read outside the engine's storage *)
  | NativeFault.

Definition exn_name (e : exn) : string :=
  match e with
  | ValueError _ => "ValueError"
  | RuntimeError _ => "RuntimeError"
  | IndexError => "IndexError"
  | OverflowError => "OverflowError"
  | AttributeError => "AttributeError"
  | UnicodeEncodeError => "UnicodeEncodeError"
  | UnicodeDecodeError => "UnicodeDecodeError"
  | NativeFault => "NativeFault"
  end.

(** [except ValueError] catches [ValueError] and its subclasses. *)
Definition is_ValueError (e : exn) : bool :=
  match e with
  | ValueError _ | UnicodeEncodeError | UnicodeDecodeError => true
  | _ => false
  end.

Inductive result (A : Type) : Type :=
  | Ok (a : A)
  | Raise (e : exn).
Arguments Ok {A} a.
Arguments Raise {A} e.

#[global] Instance result_ret : MRet result := fun _ a => Ok a.
#[global] Instance result_bind : MBind result := fun _ _ k r =>
  match r with
  | Ok a => k a
  | Raise e => Raise e
  end.

Definition is_ok {A} (r : result A) : bool :=
  match r with Ok _ => true | Raise _ => false end.

(** [[f(i) for i in xrange(n)]], [f] evaluated in increasing order of [i];
    the first exception ends the loop. *)
Fixpoint collect {A B} (f : A -> result B) (l : list A) : result (list B) :=
  match l with
  | [] => Ok []
  | a :: l' => b ← f a; bs ← collect f l'; Ok (b :: bs)
  end.

(** [xrange(n)]: 0, 1, ..., n - 1; empty when [n] is not positive. *)
Abbreviation xrange n := (seqZ 0 n).

(** [block[i]] on a C array. *)
Definition c_index {A} (block : list A) (i : Z) : result A :=
  if i <? 0 then Raise NativeFault
  else match block !! Z.to_nat i with
       | Some x => Ok x
       | None => Raise NativeFault
       end.

(** ** UTF-8 *)

Definition is_surrogate (c : Z) : bool := (0xD800 <=? c) && (c <=? 0xDFFF).

(** The code points a host string can be encoded from. *)
Definition scalar_value (c : Z) : Prop :=
  0 <= c < 0x110000 /\ is_surrogate c = false.

Definition utf8_encode_cp (c : Z) : option bytes :=
  if c <? 0 then None
  else if c <? 0x80 then Some [c]
  else if c <? 0x800 then Some [0xC0 + c / 64; 0x80 + c mod 64]
  else if c <? 0x10000 then
    if is_surrogate c then None
    else Some [0xE0 + c / 4096; 0x80 + (c / 64) mod 64; 0x80 + c mod 64]
  else if c <? 0x110000 then
    Some [0xF0 + c / 262144; 0x80 + (c / 4096) mod 64;
          0x80 + (c / 64) mod 64; 0x80 + c mod 64]
  else None.

Fixpoint utf8_encode (s : ustring) : option bytes :=
  match s with
  | [] => Some []
  | c :: s' =>
      match utf8_encode_cp c, utf8_encode s' with
      | Some b, Some bs => Some (b ++ bs)
      | _, _ => None
      end
  end.

Definition is_cont (b : Z) : bool := (0x80 <=? b) && (b <=? 0xBF).

(** The strict decoder: overlong forms, surrogates and code points above
    U+10FFFF are refused. *)
Fixpoint utf8_decode (b : bytes) : option ustring :=
  match b with
  | [] => Some []
  | b0 :: r0 =>
      if (0 <=? b0) && (b0 <? 0x80) then cons b0 <$> utf8_decode r0
      else if (0xC2 <=? b0) && (b0 <=? 0xDF) then
        match r0 with
        | b1 :: r1 =>
            if is_cont b1
            then cons ((b0 - 0xC0) * 64 + (b1 - 0x80)) <$> utf8_decode r1
            else None
        | _ => None
        end
      else if (0xE0 <=? b0) && (b0 <=? 0xEF) then
        match r0 with
        | b1 :: b2 :: r2 =>
            let c := (b0 - 0xE0) * 4096 + (b1 - 0x80) * 64 + (b2 - 0x80) in
            if is_cont b1 && is_cont b2 && (0x800 <=? c)
               && negb (is_surrogate c)
            then cons c <$> utf8_decode r2
            else None
        | _ => None
        end
      else if (0xF0 <=? b0) && (b0 <=? 0xF4) then
        match r0 with
        | b1 :: b2 :: b3 :: r3 =>
            let c := (b0 - 0xF0) * 262144 + (b1 - 0x80) * 4096
                     + (b2 - 0x80) * 64 + (b3 - 0x80) in
            if is_cont b1 && is_cont b2 && is_cont b3
               && (0x10000 <=? c) && (c <? 0x110000)
            then cons c <$> utf8_decode r3
            else None
        | _ => None
        end
      else None
  end.

(** The bytes of a C string: what lies before the first NUL. *)
Fixpoint c_string (b : bytes) : bytes :=
  match b with
  | [] => []
  | x :: b' => if x =? 0 then [] else x :: c_string b'
  end.

(** ** The value marshaller *)

(** [cdef _str(char* s)]: [s.decode('utf-8')] on a [char*] decodes the C
    string found at [s]. *)
Definition _str (s : char_p) : result (option ustring) :=
  match s with
  | None => Ok None
  | Some b =>
      match utf8_decode (c_string b) with
      | Some t => Ok (Some t)
      | None => Raise UnicodeDecodeError
      end
  end.

(** [cdef bytes _cstr(s)] *)
Definition _cstr (s : option ustring) : result bytes :=
  match s with
  | None => Ok []
  | Some t =>
      match utf8_encode t with
      | Some b => Ok b
      | None => Raise UnicodeEncodeError
      end
  end.

(** A [bytes] object handed to a [char*] parameter: a pointer to its
    buffer. *)
Definition as_char_p (b : bytes) : char_p := Some b.

(** Encoding a host string and decoding what the engine then holds. *)
Definition roundtrip (s : ustring) : result (option ustring) :=
  b ← _cstr (Some s); _str (as_char_p b).

(** ** Host library functions used by the binding *)

(** [l[i]] on a host list: a negative index counts from the end. *)
Definition py_index {A} (l : list A) (i : Z) : result A :=
  let n := Z.of_nat (length l) in
  let j := if i <? 0 then i + n else i in
  if (j <? 0) || (n <=? j) then Raise IndexError
  else match l !! Z.to_nat j with
       | Some x => Ok x
       | None => Raise IndexError
       end.

(** [l[start:stop]] *)
Definition py_slice {A} (start stop : Z) (l : list A) : list A :=
  let n := Z.of_nat (length l) in
  let clamp i := if i <? 0 then Z.max 0 (i + n) else Z.min i n in
  take (Z.to_nat (clamp stop - clamp start)) (drop (Z.to_nat (clamp start)) l).

Fixpoint take_while {A} (p : A -> bool) (l : list A) : list A :=
  match l with
  | x :: l' => if p x then x :: take_while p l' else []
  | [] => []
  end.

Fixpoint drop_while {A} (p : A -> bool) (l : list A) : list A :=
  match l with
  | x :: l' => if p x then drop_while p l' else l
  | [] => []
  end.

(** [str.isspace] on one character. *)
Definition py_isspace (c : Z) : bool :=
  ((0x09 <=? c) && (c <=? 0x0D)) || ((0x1C <=? c) && (c <=? 0x20))
  || (c =? 0x85) || (c =? 0xA0) || (c =? 0x1680)
  || ((0x2000 <=? c) && (c <=? 0x200A))
  || (c =? 0x2028) || (c =? 0x2029) || (c =? 0x202F) || (c =? 0x205F)
  || (c =? 0x3000).

(** [s.split(None, maxsplit)]: fields are separated by runs of whitespace;
    after [maxsplit] fields the remainder is one more field, its leading
    whitespace dropped and the rest kept as it is. *)
Fixpoint py_split (maxsplit : nat) (s : ustring) : list ustring :=
  match drop_while py_isspace s with
  | [] => []
  | c :: r =>
      match maxsplit with
      | O => [c :: r]
      | S n =>
          take_while (fun x => negb (py_isspace x)) (c :: r)
          :: py_split n (drop_while (fun x => negb (py_isspace x)) (c :: r))
      end
  end.

Definition ascii_lower (c : Z) : Z :=
  if (65 <=? c) && (c <=? 90) then c + 32 else c.

Definition is_digit (c : Z) : bool := (48 <=? c) && (c <=? 57).

Definition digits_value (ds : list Z) : Z :=
  fold_left (fun acc d => 10 * acc + (d - 48)) ds 0.

Definition parse_sign (s : ustring) : bool * ustring :=
  match s with
  | 45 :: r => (true, r)
  | 43 :: r => (false, r)
  | _ => (false, s)
  end.

Definition ustring_eqb (a b : ustring) : bool := bool_decide (a = b).

(** The exponent part of a decimal literal: nothing, or [e] or [E], an
    optional sign and at least one digit, up to the end of the text. *)
Definition parse_exponent (s : ustring) : option Z :=
  match s with
  | [] => Some 0
  | c :: r =>
      if (c =? 101) || (c =? 69) then
        let '(neg, r') := parse_sign r in
        match r' with
        | [] => None
        | _ =>
            if forallb is_digit r'
            then Some (if neg then - digits_value r' else digits_value r')
            else None
        end
      else None
  end.

(** The whitespace [float] drops around its text: that of ASCII, and the
    spaces of Unicode above it. *)
Definition float_isspace (c : Z) : bool :=
  (c =? 0x20) || ((0x09 <=? c) && (c <=? 0x0D))
  || ((0x80 <=? c) && py_isspace c).

(** Digit separators: an underscore is dropped when it stands between two
    digits and refuses the text anywhere else. *)
Fixpoint drop_separators (prev : Z) (s : ustring) : option ustring :=
  match s with
  | [] => Some []
  | c :: r =>
      if c =? 95 then
        match r with
        | d :: _ =>
            if is_digit prev && is_digit d then drop_separators c r else None
        | [] => None
        end
      else cons c <$> drop_separators c r
  end.

(** The binary64 number nearest to [a / d], ties to the even mantissa;
    infinite from 2^1024 on.  [a] is not negative and [d] is positive. *)
Definition round_binary64 (negative : bool) (a d : Z) : double :=
  if a =? 0 then DFin (inject_Z 0)
  else
    let e0 := Z.log2 a - Z.log2 d in
    let below :=
      if 0 <=? e0 then a <? d * 2 ^ e0 else a * 2 ^ (- e0) <? d in
    let e := if below then e0 - 1 else e0 in
    let k := Z.max (e - 52) (-1074) in
    let (N, D) := if 0 <=? k then (a, d * 2 ^ k) else (a * 2 ^ (- k), d) in
    let q := N / D in
    let r := N mod D in
    let m := if (D <? 2 * r) || ((D =? 2 * r) && Z.odd q) then q + 1 else q in
    if 0 <=? k then
      if 2 ^ 1024 <=? m * 2 ^ k then DInf negative
      else DFin (inject_Z ((if negative then - m else m) * 2 ^ k))
    else
      DFin (Qred (Qmake (if negative then - m else m) (Z.to_pos (2 ^ (- k))))).

(** A reading of [float(s)] on text, for the sample host below:
    surrounding whitespace is dropped; then
    [[sign] (digits [. [digits]] | . digits) [exponent]] with digit
    separators, or [inf], [infinity] or [nan] in any case; the number is
    rounded to binary64.  [None] stands for the [ValueError] of a text
    that is no number.  The digits of scripts other than ASCII and the
    sign of zero are not read. *)
Definition ref_float (s : ustring) : option double :=
  let stripped :=
    rev (drop_while float_isspace (rev (drop_while float_isspace s))) in
  match drop_separators 0 stripped with
  | None => None
  | Some t =>
      let '(neg, r) := parse_sign t in
      let low := List.map ascii_lower r in
      if ustring_eqb low (u "inf") || ustring_eqb low (u "infinity")
      then Some (DInf neg)
      else if ustring_eqb low (u "nan") then Some DNaN
      else
        let ip := take_while is_digit r in
        let r1 := drop_while is_digit r in
        let '(fp, r2) :=
          match r1 with
          | 46 :: r' => (take_while is_digit r', drop_while is_digit r')
          | _ => ([], r1)
          end in
        match ip ++ fp with
        | [] => None
        | ds =>
            match parse_exponent r2 with
            | None => None
            | Some e =>
                let x := e - Z.of_nat (length fp) in
                Some (if 0 <=? x
                      then round_binary64 neg (digits_value ds * 10 ^ x) 1
                      else round_binary64 neg (digits_value ds) (10 ^ (- x)))
            end
        end
  end.

(** [bool(x)], [int(x)] on a float. *)
Definition double_bool (d : double) : bool :=
  match d with
  | DFin q => negb (Qeq_bool q (inject_Z 0))
  | _ => true
  end.

Definition double_int (d : double) : result Z :=
  match d with
  | DFin q => Ok (Z.quot (Qnum q) (Z.pos (Qden q)))
  | DInf _ => Raise OverflowError
  | DNaN => Raise (ValueError (Msg "cannot convert float NaN to integer" []))
  end.

(** ** The engine's records (cern.cpymad.clibmadx)

    The declaration file of the engine's structures is not among the
    sources: the records below hold the fields the binding reads, under
    the names it reads them by (prefixed by the record).  A pointer the
    binding tests against NULL is an [option]; a pointer it follows
    without a test is the record itself. *)

(** Modelled from the spec: [struct expression], the text of a symbolic
    expression. *)
Record expression : Type := { expr_string : char_p }.

(** Modelled from the spec: [struct double_array], a counter and a block
    of numbers. *)
Record double_array : Type := { da_curr : Z; da_a : list double }.

(** Modelled from the spec: [struct expr_list], the expressions that run
    parallel to an array of numbers. *)
Record expr_list : Type :=
  { el_curr : Z; el_list : list (option expression) }.

(** Modelled from the spec: [struct char_p_array], a counter and a block
    of C strings. *)
Record char_p_array : Type := { cpa_curr : Z; cpa_p : list char_p }.

(** Modelled from the spec: [struct name_list], the names of a registry. *)
Record name_list : Type := { nl_curr : Z; nl_names : list char_p }.

(** Modelled from the spec: [struct command_parameter], the tagged
    parameter record. *)
Record command_parameter : Type := {
  par_name : char_p;
  par_type : Z;
  par_c_type : Z;
  par_double_value : double;
  par_c_min : double;
  par_c_max : double;
  par_expr : option expression;
  par_min_expr : option expression;
  par_max_expr : option expression;
  par_string : char_p;
  par_double_array : double_array;
  par_expr_list : option expr_list;
  par_m_string : char_p_array
}.

(** Modelled from the spec: [struct command_parameter_list], the
    parameters of a command in stored order. *)
Record command_parameter_list : Type :=
  { cpl_curr : Z; cpl_parameters : list command_parameter }.

(** Modelled from the spec: [struct command]. *)
Record command : Type :=
  { cmd_par : command_parameter_list; cmd_beam_def : Z }.

(** Modelled from the spec: [struct element], a named device with its
    length and the command that defines it. *)
Record element : Type :=
  { elem_name : char_p; elem_length : double; elem_def_ : command }.

(** Modelled from the spec: [struct table], as far as the binding reads it
    directly. *)
Record table : Type := { tbl_name : char_p; tbl_columns : name_list }.

(** Modelled from the spec: [struct node] and [struct sequence].  A node
    places an element or a nested sequence; a sequence has its declared
    nodes ([nodes.curr], [nodes.nodes]) and its expanded nodes
    ([all_nodes], [n_nodes]). *)
Inductive node : Type :=
  Node (p_elem : option element) (p_sequ : option sequence)
       (base_name : char_p)
with sequence : Type :=
  Sequence (name : char_p) (tw_valid : Z) (tw_table : table)
           (beam : option command)
           (nodes_curr : Z) (nodes_nodes : list node)
           (all_nodes : list node) (n_nodes : Z).

Definition node_p_elem (n : node) : option element :=
  let 'Node e _ _ := n in e.
Definition node_p_sequ (n : node) : option sequence :=
  let 'Node _ s _ := n in s.
Definition node_base_name (n : node) : char_p :=
  let 'Node _ _ b := n in b.

Definition seq_name (s : sequence) : char_p :=
  let 'Sequence x _ _ _ _ _ _ _ := s in x.
Definition seq_tw_valid (s : sequence) : Z :=
  let 'Sequence _ x _ _ _ _ _ _ := s in x.
Definition seq_tw_table (s : sequence) : table :=
  let 'Sequence _ _ x _ _ _ _ _ := s in x.
Definition seq_beam (s : sequence) : option command :=
  let 'Sequence _ _ _ x _ _ _ _ := s in x.
Definition seq_nodes_curr (s : sequence) : Z :=
  let 'Sequence _ _ _ _ x _ _ _ := s in x.
Definition seq_nodes_nodes (s : sequence) : list node :=
  let 'Sequence _ _ _ _ _ x _ _ := s in x.
Definition seq_all_nodes (s : sequence) : list node :=
  let 'Sequence _ _ _ _ _ _ x _ := s in x.
Definition seq_n_nodes (s : sequence) : Z :=
  let 'Sequence _ _ _ _ _ _ _ x := s in x.

(** Modelled from the spec: [struct sequence_list], the registry of
    sequences. *)
Record sequence_list : Type :=
  { sl_curr : Z; sl_list : name_list; sl_sequs : list sequence }.

(** Modelled from the spec: [struct table_list], the registry of tables. *)
Record table_list : Type :=
  { tl_names : name_list; tl_tables : list table }.

(** Modelled from the spec: [struct column_info], what the engine answers
    for a column: the address of its data, its length and the [char] that
    tells its datatype. *)
Record column_info : Type :=
  { ci_data : Z; ci_length : Z; ci_datatype : Z }.

(** The engine's global state, as far as the binding reads it.  Memory
    behind a [void*] is a block found by its address. *)
Record globals : Type := {
  current_sequ : option sequence;
  sequences : sequence_list;
  table_register : table_list;
  double_blocks : gmap Z (list double);
  char_p_blocks : gmap Z (list char_p)
}.

(** The enumeration constants and entry points [cimport]ed from the engine,
    and [str.lower] of the host.  A [char*] argument is given by the C
    string it points at. *)
Class Clib : Type := {
  PARAM_TYPE_LOGICAL : Z;
  PARAM_TYPE_INTEGER : Z;
  PARAM_TYPE_DOUBLE : Z;
  PARAM_TYPE_STRING : Z;
  PARAM_TYPE_CONSTRAINT : Z;
  PARAM_TYPE_LOGICAL_ARRAY : Z;
  PARAM_TYPE_INTEGER_ARRAY : Z;
  PARAM_TYPE_DOUBLE_ARRAY : Z;
  PARAM_TYPE_STRING_ARRAY : Z;
  CONSTR_TYPE_MIN : Z;
  CONSTR_TYPE_MAX : Z;
  CONSTR_TYPE_BOTH : Z;
  CONSTR_TYPE_VALUE : Z;
  name_list_pos : bytes -> name_list -> Z;
  table_exists_ : globals -> bytes -> Z;
  table_get_header : globals -> bytes -> char_p_array;
  table_get_column : globals -> bytes -> bytes -> column_info;
  madx_start : globals -> globals;
  madx_finish : globals -> globals;
  stolower_nq : bytes -> bytes;
  pro_input : bytes -> globals -> globals;
  evaluate_expression : bytes -> globals -> globals * double;
  str_lower : ustring -> ustring
}.

(** What the source leaves to the host it is built for: Python's [float]
    on text ([None] stands for its [ValueError]), and what the Cython
    compiler does with an exception raised inside a [cdef] function that
    returns a C type and has no [except] clause.  Cython 3 propagates the
    exception; Cython before 3.0 reports it, drops it and lets the
    function return 0. *)
Class Host : Type := {
  py_float : ustring -> option double;
  cdef_propagates : bool
}.

(** ** The binding *)

Definition in_tuple (x : Z) (t : list Z) : bool := existsb (Z.eqb x) t.

(** A loop over [xrange(n)] that updates [res]; the first exception ends
    it. *)
Fixpoint for_each {A S} (f : S -> A -> result S) (l : list A) (res : S)
  : result S :=
  match l with
  | [] => Ok res
  | a :: l' => res' ← f res a; for_each f l' res'
  end.

Definition _expr_types : list expr_type := [Tbool; Tint; Tfloat].

(** [type(value)] for [type] an entry of [_expr_types]. *)
Definition apply_type (type : expr_type) (v : double) : result value :=
  match type with
  | Tbool => Ok (VBool (double_bool v))
  | Tint => z ← double_int v; Ok (VInt z)
  | Tfloat => Ok (VFloat v)
  end.

Abbreviation py_dict := (gmap (option ustring) value).

(** What [get_table_column] returns: a view on a block of the engine's
    memory, or an array that holds its items. *)
Inductive ndarray : Type :=
  | NdView (data : Z) (shape : Z)
  | NdOwned (items : list value).

(** [cnp.PyArray_SimpleNewFromData(1, shape, cnp.NPY_DOUBLE, data)]: no
    memory is read or copied. *)
Definition PyArray_SimpleNewFromData (shape : Z) (data : Z) : result ndarray :=
  if shape <? 0
  then Raise (ValueError (Msg "negative dimensions are not allowed" []))
  else Ok (NdView data shape).

(** The items of an array, read in the engine state [g]. *)
Definition nd_items (g : globals) (a : ndarray) : option (list value) :=
  match a with
  | NdView data shape =>
      block ← double_blocks g !! data;
      if Z.of_nat (length block) <? shape then None
      else Some (VFloat <$> take (Z.to_nat shape) block)
  | NdOwned items => Some items
  end.

(** A [char*] turned into a host object: the bytes of the C string.  The
    conversion reads the string, so that a NULL pointer is a fault. *)
Definition char_p_to_bytes (p : char_p) : result bytes :=
  match p with
  | None => Raise NativeFault
  | Some b => Ok (c_string b)
  end.

Definition bytes_of_char_p (p : char_p) : result value :=
  b ← char_p_to_bytes p; Ok (VBytes b).

(** The bracket [start()] .. [finish()].  The binding keeps no record of it;
    the phase is carried along here to state what a call does inside and
    outside the bracket. *)
Inductive phase : Type := NotStarted | Running | Finished.

Record engine : Type := { eng_phase : phase; eng_globals : globals }.

(** Following a pointer: NULL is a fault. *)
Definition deref {A} (p : option A) : result A :=
  match p with
  | Some a => Ok a
  | None => Raise NativeFault
  end.

Section Binding.

Context {clib : Clib} {host : Host}.

(** [cdef _expr(clib.expression* expr, value, typeid=clib.PARAM_TYPE_DOUBLE)] *)
Definition _expr (expr : option expression) (v : double) (typeid : Z)
  : result value :=
  type ← py_index _expr_types typeid;
  match expr with
  | None => apply_type type v
  | Some e => s ← _str (expr_string e); Ok (VExpression s v type)
  end.

(** The branch of [_get_param_value] for [PARAM_TYPE_CONSTRAINT]: [None]
    when no [c_type] matches and control falls through. *)
Definition _constraint (par : command_parameter) : option (result value) :=
  if par_c_type par =? CONSTR_TYPE_MIN then
    Some (lo ← _expr (par_min_expr par) (par_c_min par) PARAM_TYPE_DOUBLE;
          Ok (VConstraint None (Some lo) None))
  else if par_c_type par =? CONSTR_TYPE_MAX then
    Some (hi ← _expr (par_max_expr par) (par_c_max par) PARAM_TYPE_DOUBLE;
          Ok (VConstraint None None (Some hi)))
  else if par_c_type par =? CONSTR_TYPE_BOTH then
    Some (lo ← _expr (par_min_expr par) (par_c_min par) PARAM_TYPE_DOUBLE;
          hi ← _expr (par_max_expr par) (par_c_max par) PARAM_TYPE_DOUBLE;
          Ok (VConstraint None (Some lo) (Some hi)))
  else if par_c_type par =? CONSTR_TYPE_VALUE then
    Some (v ← _expr (par_expr par) (par_double_value par) PARAM_TYPE_DOUBLE;
          Ok (VConstraint (Some v) None None))
  else None.

(** One element of the list built for an array of numbers. *)
Definition _array_item (par : command_parameter) (i : Z) : result value :=
  e ← match par_expr_list par with
      | None => Ok None
      | Some el => c_index (el_list el) i
      end;
  v ← c_index (da_a (par_double_array par)) i;
  _expr e v (par_type par - PARAM_TYPE_LOGICAL_ARRAY).

Definition _unknown_parameter_type (par : command_parameter) : exn :=
  ValueError (Msg "Unknown parameter type: {}" [VInt (par_type par)]).

(** [cdef _get_param_value(clib.command_parameter* par)] *)
Definition _get_param_value (par : command_parameter) : result value :=
  if in_tuple (par_type par)
       [PARAM_TYPE_LOGICAL; PARAM_TYPE_INTEGER; PARAM_TYPE_DOUBLE]
  then _expr (par_expr par) (par_double_value par) (par_type par)
  else if par_type par =? PARAM_TYPE_STRING
  then s ← _str (par_string par); Ok (of_str s)
  else
    match (if par_type par =? PARAM_TYPE_CONSTRAINT
           then _constraint par else None) with
    | Some r => r
    | None =>
        if in_tuple (par_type par)
             [PARAM_TYPE_INTEGER_ARRAY; PARAM_TYPE_DOUBLE_ARRAY]
        then
          l ← collect (_array_item par)
                (xrange (da_curr (par_double_array par)));
          Ok (VList l)
        else if par_type par =? PARAM_TYPE_STRING_ARRAY
        then
          l ← collect (fun i => p ← c_index (cpa_p (par_m_string par)) i;
                                s ← _str p; Ok (of_str s))
                (xrange (cpa_curr (par_m_string par)));
          Ok (VList l)
        else Raise (_unknown_parameter_type par)
    end.

(** One round of the loop of [_parse_command]: the key and the value it
    computes, and the assignment [res[name] = ...]. *)
Definition _parse_command_item (cmd : command) (i : Z)
  : result (option ustring * value) :=
  par ← c_index (cpl_parameters (cmd_par cmd)) i;
  name ← _str (par_name par);
  v ← _get_param_value par;
  Ok (name, v).

Definition _parse_command_step (cmd : command) (res : py_dict) (i : Z)
  : result py_dict :=
  kv ← _parse_command_item cmd i;
  Ok (<[kv.1 := kv.2]> res).

(** [cdef _parse_command(clib.command* cmd)] *)
Definition _parse_command (cmd : command) : result py_dict :=
  for_each (_parse_command_step cmd) (xrange (cpl_curr (cmd_par cmd))) ∅.

(** The body of [_find_sequence]. *)
Definition _find_sequence_body (g : globals) (sequence_name : option ustring)
  : result sequence :=
  _sequence_name ← _cstr sequence_name;
  let seqs := sequences g in
  let index := name_list_pos (c_string _sequence_name) (sl_list seqs) in
  if index =? -1
  then Raise (ValueError (Msg "Invalid sequence: {}" [of_str sequence_name]))
  else c_index (sl_sequs seqs) index.

(** [cdef clib.sequence* _find_sequence(sequence_name)]: the function
    returns a C pointer and is declared without an [except] clause.  An
    exception raised in its body reaches the caller only when the
    compiler propagates it; otherwise it is dropped and the function
    returns NULL. *)
Definition _find_sequence (g : globals) (sequence_name : option ustring)
  : result (option sequence) :=
  match _find_sequence_body g sequence_name with
  | Ok seq => Ok (Some seq)
  | Raise NativeFault => Raise NativeFault
  | Raise e => if cdef_propagates then Raise e else Ok None
  end.

(** [cdef _split_header_line(header_line)]: the argument is a host
    object, the [bytes] made from [header.p[i]]. *)
Definition _split_header_line (header_line : bytes)
  : result (ustring * value) :=
  line ← _str (as_char_p header_line);
  match line with
  | None => Raise AttributeError
  | Some line =>
      match py_split 3 line with
      | [_; key; kind; val] =>
          if ustring_eqb kind (u "%le") then
            match py_float val with
            | Some d => Ok (key, VFloat d)
            | None =>
                Raise (ValueError
                         (Msg "could not convert string to float" [VStr val]))
            end
          else if bool_decide (last kind = Some 115) then
            Ok (key, VStr (py_slice 1 (-1) val))
          else Ok (key, VStr val)
      | fields =>
          Raise (ValueError
                   (Msg "need more than {} values to unpack"
                        [VInt (Z.of_nat (length fields))]))
      end
  end.

(** [cdef _name_list(clib.name_list* names)] *)
Definition _name_list (names : name_list) : result (list value) :=
  collect (fun i => p ← c_index (nl_names names) i; bytes_of_char_p p)
          (xrange (nl_curr names)).

(** [cdef _get_element(clib.element* elem)] *)
Definition _get_element (elem : element) : result py_dict :=
  data ← _parse_command (elem_def_ elem);
  name ← _str (elem_name elem);
  let data := <[Some (u "name") := of_str name]> data in
  let data := <[Some (u "length") := VFloat (elem_length elem)]> data in
  Ok data.

(** [cdef _get_node(clib.node* node)] *)
Definition _get_node (node : node) : result py_dict :=
  match node_p_elem node with
  | Some elem =>
      data ← _get_element elem;
      type ← _str (node_base_name node);
      Ok (<[Some (u "type") := of_str type]> data)
  | None =>
      match node_p_sequ node with
      | Some sequ =>
          name ← _str (seq_name sequ);
          Ok (<[Some (u "sequence") := of_str name]>
                {[Some (u "type") := VStr (u "sequence")]})
      | None =>
          Raise (RuntimeError
                   (Msg "Empty node! Please report this incident!" []))
      end
  end.

(** *** The public functions *)

Definition start (e : engine) : engine :=
  {| eng_phase := Running; eng_globals := madx_start (eng_globals e) |}.

Definition finish (e : engine) : engine :=
  {| eng_phase := Finished; eng_globals := madx_finish (eng_globals e) |}.

Definition input (g : globals) (cmd : option ustring) : result globals :=
  _cmd ← _cstr cmd;
  Ok (pro_input (stolower_nq (c_string _cmd)) g).

Definition sequence_exists (g : globals) (sequence : option ustring)
  : result bool :=
  match _find_sequence g sequence with
  | Ok _ => Ok true
  | Raise e => if is_ValueError e then Ok false else Raise e
  end.

Definition get_twiss (g : globals) (sequence_name : option ustring)
  : result (option ustring) :=
  p ← _find_sequence g sequence_name;
  seq ← deref p;
  if seq_tw_valid seq =? 0
  then Raise (RuntimeError (Msg "TWISS table invalid." []))
  else _str (tbl_name (seq_tw_table seq)).

Definition get_beam (g : globals) (sequence_name : option ustring)
  : result py_dict :=
  p ← _find_sequence g sequence_name;
  seq ← deref p;
  let no_beam :=
    RuntimeError (Msg "No beam attached to {}" [of_str sequence_name]) in
  match seq_beam seq with
  | None => Raise no_beam
  | Some beam =>
      if cmd_beam_def beam =? 0 then Raise no_beam
      else _parse_command beam
  end.

Definition get_current_sequence (g : globals) : result (option ustring) :=
  match current_sequ g with
  | None => Raise (RuntimeError (Msg "No active sequence!" []))
  | Some seq => _str (seq_name seq)
  end.

Definition get_sequences (g : globals) : result (list (option ustring)) :=
  let seqs := sequences g in
  collect (fun i => seq ← c_index (sl_sequs seqs) i; _str (seq_name seq))
          (xrange (sl_curr seqs)).

Definition table_exists (g : globals) (table : option ustring)
  : result bool :=
  _table ← _cstr table;
  Ok (negb (table_exists_ g (c_string _table) =? 0)).

Definition get_table_summary (g : globals) (table : option ustring)
  : result (gmap ustring value) :=
  _table ← _cstr table;
  let header := table_get_header g (c_string _table) in
  items ← collect (fun i => p ← c_index (cpa_p header) i;
                            line ← char_p_to_bytes p;
                            _split_header_line line)
            (xrange (cpa_curr header));
  Ok (foldl (fun d kv => <[kv.1 := kv.2]> d) ∅ items).

Definition get_table_columns (g : globals) (table : option ustring)
  : result (list value) :=
  _table ← _cstr table;
  let index :=
    name_list_pos (c_string _table) (tl_names (table_register g)) in
  if index =? -1
  then Raise (ValueError (Msg "Invalid table: {!r}" [of_str table]))
  else
    t ← c_index (tl_tables (table_register g)) index;
    _name_list (tbl_columns t).

Definition get_table_column (g : globals) (table column : option ustring)
  : result ndarray :=
  _table ← _cstr table;
  _column ← _cstr column;
  let info := table_get_column g (c_string _table) (c_string _column) in
  let dtype := [ci_datatype info] in
  if ci_datatype info =? 100 (* b'd' *) then
    PyArray_SimpleNewFromData (ci_length info) (ci_data info)
  else if ci_datatype info =? 83 (* b'S' *) then
    match char_p_blocks g !! ci_data info with
    | None => Raise NativeFault
    | Some char_tmp =>
        l ← collect (fun i => p ← c_index char_tmp i; bytes_of_char_p p)
              (xrange (ci_length info));
        Ok (NdOwned l)
    end
  else if ci_datatype info =? 86 (* b'V' *) then
    Raise (ValueError (Msg "Column {!r} is not in table {!r}."
                           [of_str column; of_str table]))
  else
    tag ← _str (as_char_p dtype);
    Raise (RuntimeError (Msg "Unknown datatype {!r} in column {!r}."
                             [of_str tag; of_str column])).

Definition get_elements (g : globals) (sequence_name : option ustring)
  : result (list py_dict) :=
  p ← _find_sequence g sequence_name;
  seq ← deref p;
  collect (fun i => n ← c_index (seq_nodes_nodes seq) i; _get_node n)
          (xrange (seq_nodes_curr seq)).

Definition get_expanded_elements (g : globals)
    (sequence_name : option ustring) : result (list py_dict) :=
  p ← _find_sequence g sequence_name;
  seq ← deref p;
  collect (fun i => n ← c_index (seq_all_nodes seq) i; _get_node n)
          (xrange (seq_n_nodes seq)).

(** The tokenizer, parser and evaluator calls of the engine are taken as
    one step, [evaluate_expression]. *)
Definition evaluate (g : globals) (cmd : option ustring)
  : result (globals * double) :=
  match cmd with
  | None => Raise AttributeError
  | Some cmd =>
      _cmd ← _cstr (Some (str_lower cmd));
      Ok (evaluate_expression (c_string _cmd) g)
  end.

End Binding.

(** *** Calls through the public interface *)

Inductive operation : Type :=
  | call_input (cmd : option ustring)
  | call_sequence_exists (sequence : option ustring)
  | call_get_twiss (sequence_name : option ustring)
  | call_get_beam (sequence_name : option ustring)
  | call_get_current_sequence
  | call_get_sequences
  | call_table_exists (table : option ustring)
  | call_get_table_summary (table : option ustring)
  | call_get_table_columns (table : option ustring)
  | call_get_table_column (table column : option ustring)
  | call_get_elements (sequence_name : option ustring)
  | call_get_expanded_elements (sequence_name : option ustring)
  | call_evaluate (cmd : option ustring).

Inductive answer : Type :=
  | ANone
  | ABool (b : bool)
  | AStr (s : option ustring)
  | AFloat (d : double)
  | ADict (d : py_dict)
  | ASummary (d : gmap ustring value)
  | ANames (l : list (option ustring))
  | AList (l : list value)
  | ADicts (l : list py_dict)
  | AArray (a : ndarray).

(** A call of a public function other than [start] and [finish] on the
    engine [e]: the engine's state after the call and what the call
    returns. *)
Definition call {clib : Clib} {host : Host} (op : operation) (e : engine)
  : result (globals * answer) :=
  let g := eng_globals e in
  match op with
  | call_input cmd => g' ← input g cmd; Ok (g', ANone)
  | call_sequence_exists s => b ← sequence_exists g s; Ok (g, ABool b)
  | call_get_twiss s => t ← get_twiss g s; Ok (g, AStr t)
  | call_get_beam s => d ← get_beam g s; Ok (g, ADict d)
  | call_get_current_sequence => s ← get_current_sequence g; Ok (g, AStr s)
  | call_get_sequences => l ← get_sequences g; Ok (g, ANames l)
  | call_table_exists t => b ← table_exists g t; Ok (g, ABool b)
  | call_get_table_summary t => d ← get_table_summary g t; Ok (g, ASummary d)
  | call_get_table_columns t => l ← get_table_columns g t; Ok (g, AList l)
  | call_get_table_column t c => a ← get_table_column g t c; Ok (g, AArray a)
  | call_get_elements s => l ← get_elements g s; Ok (g, ADicts l)
  | call_get_expanded_elements s =>
      l ← get_expanded_elements g s; Ok (g, ADicts l)
  | call_evaluate cmd => r ← evaluate g cmd; Ok (r.1, AFloat r.2)
  end.

(** The class of the exception a call ends with, if it ends with one. *)
Definition failure {A} (r : result A) : option string :=
  match r with
  | Ok _ => None
  | Raise e => Some (exn_name e)
  end.

(** ** Assumptions on the engine's constants

    [_expr_types] is indexed by the scalar type tags, and by the distance of
    an array tag from [PARAM_TYPE_LOGICAL_ARRAY]; the tags a parameter is
    dispatched on are distinct. *)
Record ClibOk (clib : Clib) : Prop := {
  tag_logical : PARAM_TYPE_LOGICAL = 0;
  tag_integer : PARAM_TYPE_INTEGER = 1;
  tag_double : PARAM_TYPE_DOUBLE = 2;
  tag_integer_array : PARAM_TYPE_INTEGER_ARRAY = PARAM_TYPE_LOGICAL_ARRAY + 1;
  tag_double_array : PARAM_TYPE_DOUBLE_ARRAY = PARAM_TYPE_LOGICAL_ARRAY + 2;
  tags_distinct :
    NoDup [PARAM_TYPE_LOGICAL; PARAM_TYPE_INTEGER; PARAM_TYPE_DOUBLE;
           PARAM_TYPE_STRING; PARAM_TYPE_CONSTRAINT;
           PARAM_TYPE_INTEGER_ARRAY; PARAM_TYPE_DOUBLE_ARRAY;
           PARAM_TYPE_STRING_ARRAY]
}.

(** The type tags [_get_param_value] has a branch for. *)
Definition recognized_tags {clib : Clib} : list Z :=
  [PARAM_TYPE_LOGICAL; PARAM_TYPE_INTEGER; PARAM_TYPE_DOUBLE;
   PARAM_TYPE_STRING; PARAM_TYPE_CONSTRAINT;
   PARAM_TYPE_INTEGER_ARRAY; PARAM_TYPE_DOUBLE_ARRAY;
   PARAM_TYPE_STRING_ARRAY].

(** The provenance of a decoded number: the expression text of an
    [Expression], nothing for a plain number. *)
Definition provenance (v : value) : option (option ustring) :=
  match v with
  | VExpression s _ _ => Some s
  | _ => None
  end.

(** Slot [i] of the block of a parameter's expression list: [Some None] is a
    NULL slot, and every slot of a list that is absent; [None] lies outside
    the block. *)
Definition expr_slot (par : command_parameter) (i : nat)
  : option (option expression) :=
  match par_expr_list par with
  | None => Some None
  | Some el => el_list el !! i
  end.

Definition is_plain_number (v : value) : Prop :=
  match v with
  | VBool _ | VInt _ | VFloat _ => True
  | _ => False
  end.

(** ** A reference engine

    The constants have the values of MAD-X; [name_list_pos] is the position
    of the first of the [curr] names that equals the one looked up, or -1;
    the table functions answer from the parameters [header] and [column]. *)

Fixpoint find_name (name : bytes) (names : list char_p) (i : Z) : Z :=
  match names with
  | [] => -1
  | n :: names' =>
      if bool_decide (c_string <$> n = Some name) then i
      else find_name name names' (i + 1)
  end.

Definition ref_name_list_pos (name : bytes) (names : name_list) : Z :=
  find_name name (take (Z.to_nat (nl_curr names)) (nl_names names)) 0.

Definition ref_clib (header : bytes -> char_p_array)
    (column : bytes -> bytes -> column_info) : Clib := {|
  PARAM_TYPE_LOGICAL := 0;
  PARAM_TYPE_INTEGER := 1;
  PARAM_TYPE_DOUBLE := 2;
  PARAM_TYPE_STRING := 3;
  PARAM_TYPE_CONSTRAINT := 4;
  PARAM_TYPE_LOGICAL_ARRAY := 10;
  PARAM_TYPE_INTEGER_ARRAY := 11;
  PARAM_TYPE_DOUBLE_ARRAY := 12;
  PARAM_TYPE_STRING_ARRAY := 13;
  CONSTR_TYPE_MIN := 1;
  CONSTR_TYPE_MAX := 2;
  CONSTR_TYPE_BOTH := 3;
  CONSTR_TYPE_VALUE := 4;
  name_list_pos := ref_name_list_pos;
  table_exists_ := fun g name =>
    if ref_name_list_pos name (tl_names (table_register g)) =? -1
    then 0 else 1;
  table_get_header := fun _ name => header name;
  table_get_column := fun _ t c => column t c;
  madx_start := fun g => g;
  madx_finish := fun g => g;
  stolower_nq := List.map ascii_lower;
  pro_input := fun _ g => g;
  evaluate_expression := fun _ g => (g, DFin (inject_Z 0));
  str_lower := List.map ascii_lower
|}.

Definition no_header (_ : bytes) : char_p_array :=
  {| cpa_curr := 0; cpa_p := [] |}.

Definition no_column (_ _ : bytes) : column_info :=
  {| ci_data := 0; ci_length := 0; ci_datatype := 86 |}.

Definition madx : Clib := ref_clib no_header no_column.

(** The sample hosts: a build that propagates the exception of
    [_find_sequence], and a build that drops it. *)
Definition host_cython3 : Host :=
  {| py_float := ref_float; cdef_propagates := true |}.

Definition host_cython0 : Host :=
  {| py_float := ref_float; cdef_propagates := false |}.

(** ** Sample records *)

Definition num (z : Z) : double := DFin (inject_Z z).

Definition par_blank : command_parameter := {|
  par_name := Some (u "k");
  par_type := 0;
  par_c_type := 0;
  par_double_value := num 0;
  par_c_min := num 0;
  par_c_max := num 0;
  par_expr := None;
  par_min_expr := None;
  par_max_expr := None;
  par_string := None;
  par_double_array := {| da_curr := 0; da_a := [] |};
  par_expr_list := None;
  par_m_string := {| cpa_curr := 0; cpa_p := [] |}
|}.

Definition with_type (t : Z) (par : command_parameter) : command_parameter := {|
  par_name := par_name par;
  par_type := t;
  par_c_type := par_c_type par;
  par_double_value := par_double_value par;
  par_c_min := par_c_min par;
  par_c_max := par_c_max par;
  par_expr := par_expr par;
  par_min_expr := par_min_expr par;
  par_max_expr := par_max_expr par;
  par_string := par_string par;
  par_double_array := par_double_array par;
  par_expr_list := par_expr_list par;
  par_m_string := par_m_string par
|}.

Definition with_array (a : double_array) (el : option expr_list)
    (par : command_parameter) : command_parameter := {|
  par_name := par_name par;
  par_type := par_type par;
  par_c_type := par_c_type par;
  par_double_value := par_double_value par;
  par_c_min := par_c_min par;
  par_c_max := par_c_max par;
  par_expr := par_expr par;
  par_min_expr := par_min_expr par;
  par_max_expr := par_max_expr par;
  par_string := par_string par;
  par_double_array := a;
  par_expr_list := el;
  par_m_string := par_m_string par
|}.

(** A parameter of type double, by name and value. *)
Definition par_double (name : string) (v : Z) : command_parameter := {|
  par_name := Some (u name);
  par_type := 2;
  par_c_type := 0;
  par_double_value := num v;
  par_c_min := num 0;
  par_c_max := num 0;
  par_expr := None;
  par_min_expr := None;
  par_max_expr := None;
  par_string := None;
  par_double_array := {| da_curr := 0; da_a := [] |};
  par_expr_list := None;
  par_m_string := {| cpa_curr := 0; cpa_p := [] |}
|}.

(** An array of two numbers whose expression list counts one expression and
    whose block has a second slot that still holds an expression. *)
Definition par_stale_slot : command_parameter :=
  with_array {| da_curr := 2; da_a := [num 1; num 2] |}
    (Some {| el_curr := 1;
             el_list := [Some {| expr_string := Some (u "k1") |};
                         Some {| expr_string := Some (u "old") |}] |})
    (with_type 12 par_blank).

(** The same array with an expression list whose block has one slot. *)
Definition par_short_block : command_parameter :=
  with_array {| da_curr := 2; da_a := [num 1; num 2] |}
    (Some {| el_curr := 1;
             el_list := [Some {| expr_string := Some (u "k1") |}] |})
    (with_type 12 par_blank).

Definition cmd_of (ps : list command_parameter) : command := {|
  cmd_par := {| cpl_curr := Z.of_nat (length ps); cpl_parameters := ps |};
  cmd_beam_def := 1
|}.

(** A command that names the parameter [k] twice. *)
Definition cmd_twice : command :=
  cmd_of [par_double "k" 1; par_double "l" 5; par_double "k" 2].

Definition elem_q1 : element :=
  {| elem_name := Some (u "q1"); elem_length := num 2;
     elem_def_ := cmd_of [par_double "k1" 3] |}.

Definition tbl_twiss : table :=
  {| tbl_name := Some (u "twiss");
     tbl_columns := {| nl_curr := 0; nl_names := [] |} |}.

Definition seq_of (name : string) (tw_valid : Z) (nodes : list node)
  : sequence :=
  Sequence (Some (u name)) tw_valid tbl_twiss None
           (Z.of_nat (length nodes)) nodes nodes (Z.of_nat (length nodes)).

Definition globals_of (current : option sequence) (seqs : list sequence)
  : globals := {|
  current_sequ := current;
  sequences :=
    {| sl_curr := Z.of_nat (length seqs);
       sl_list := {| nl_curr := Z.of_nat (length seqs);
                     nl_names := seq_name <$> seqs |};
       sl_sequs := seqs |};
  table_register :=
    {| tl_names := {| nl_curr := 0; nl_names := [] |}; tl_tables := [] |};
  double_blocks := ∅;
  char_p_blocks := ∅
|}.

Definition node_q1 : node := Node (Some elem_q1) None (Some (u "quadrupole")).

Definition seq_inner : sequence := seq_of "inner" 0 [node_q1].

Definition node_inner : node := Node None (Some seq_inner) None.

Definition node_empty : node := Node None None None.

(** A node with both pointers set. *)
Definition node_both : node :=
  Node (Some elem_q1) (Some seq_inner) (Some (u "quadrupole")).

Definition seq_ring : sequence := seq_of "ring" 0 [node_q1; node_inner].

Definition seq_broken : sequence := seq_of "broken" 1 [node_q1; node_empty].

Definition globals_sample : globals :=
  globals_of None [seq_inner; seq_ring; seq_broken].

(** A table with the columns [length] = [1.0, 2.5] and [name] =
    ["d1", "q1"]: what the engine answers for a column, and its memory. *)
Definition sample_column (table column : bytes) : column_info :=
  if ustring_eqb column (u "length")
  then {| ci_data := 64; ci_length := 2; ci_datatype := 100 |}
  else if ustring_eqb column (u "name")
  then {| ci_data := 128; ci_length := 2; ci_datatype := 83 |}
  else if ustring_eqb column (u "count")
  then {| ci_data := 192; ci_length := 2; ci_datatype := 105 |}
  else {| ci_data := 0; ci_length := 0; ci_datatype := 86 |}.

Definition madx_table : Clib := ref_clib no_header sample_column.

Definition globals_table : globals := {|
  current_sequ := None;
  sequences :=
    {| sl_curr := 0; sl_list := {| nl_curr := 0; nl_names := [] |};
       sl_sequs := [] |};
  table_register :=
    {| tl_names := {| nl_curr := 0; nl_names := [] |}; tl_tables := [] |};
  double_blocks := {[64 := [num 1; DFin (5 # 2)]]};
  char_p_blocks := {[128 := [Some (u "d1"); Some (u "q1")]]}
|}.

(** An engine that answers with a datatype byte above 0x7F. *)
Definition madx_odd_tag : Clib :=
  ref_clib no_header
    (fun _ _ => {| ci_data := 0; ci_length := 0; ci_datatype := 255 |}).

(** The header lines [* key %le 3.14], [* key %le value 3.14] and
    [* key %s "hello"]. *)
Definition header_number : bytes := u "* key %le 3.14".

Definition header_five_fields : bytes := u "* key %le value 3.14".

Definition header_text : bytes := u "* key %s " ++ [34] ++ u "hello" ++ [34].

(** The engine before [start()]: nothing is defined. *)
Definition engine_idle : engine :=
  {| eng_phase := NotStarted; eng_globals := globals_of None [] |}.

(** A column of strings whose one entry is the byte 0xFF, which is not
    UTF-8: what the engine answers, and its memory. *)
Definition madx_raw_name : Clib :=
  ref_clib no_header
    (fun _ _ => {| ci_data := 128; ci_length := 1; ci_datatype := 83 |}).

Definition globals_raw_name : globals := {|
  current_sequ := None;
  sequences :=
    {| sl_curr := 0; sl_list := {| nl_curr := 0; nl_names := [] |};
       sl_sequs := [] |};
  table_register :=
    {| tl_names := {| nl_curr := 0; nl_names := [] |}; tl_tables := [] |};
  double_blocks := ∅;
  char_p_blocks := {[128 := [Some [255]]]}
|}.

(** ** Further notions and sample records *)

(** A bound or target of a constraint: a float, with the text of its
    expression when it has one. *)
Definition bound_value (e : option expression) (v : double) : result value :=
  match e with
  | None => Ok (VFloat v)
  | Some e => s ← _str (expr_string e); Ok (VExpression s v Tfloat)
  end.

(** An integer parameter with the value 5/2 and the expression [n/2]. *)
Definition par_int_expr : command_parameter := {|
  par_name := Some (u "n");
  par_type := 1;
  par_c_type := 0;
  par_double_value := DFin (5 # 2);
  par_c_min := num 0;
  par_c_max := num 0;
  par_expr := Some {| expr_string := Some (u "n/2") |};
  par_min_expr := None;
  par_max_expr := None;
  par_string := None;
  par_double_array := {| da_curr := 0; da_a := [] |};
  par_expr_list := None;
  par_m_string := {| cpa_curr := 0; cpa_p := [] |}
|}.

(** A constraint with both bounds, the upper one from an expression. *)
Definition par_constraint (c_type : Z) : command_parameter := {|
  par_name := Some (u "betx");
  par_type := 4;
  par_c_type := c_type;
  par_double_value := num 7;
  par_c_min := num 1;
  par_c_max := num 9;
  par_expr := None;
  par_min_expr := None;
  par_max_expr := Some {| expr_string := Some (u "bmax") |};
  par_string := None;
  par_double_array := {| da_curr := 0; da_a := [] |};
  par_expr_list := None;
  par_m_string := {| cpa_curr := 0; cpa_p := [] |}
|}.

(** An array of two strings whose second entry is NULL. *)
Definition par_strings : command_parameter := {|
  par_name := Some (u "column");
  par_type := 13;
  par_c_type := 0;
  par_double_value := num 0;
  par_c_min := num 0;
  par_c_max := num 0;
  par_expr := None;
  par_min_expr := None;
  par_max_expr := None;
  par_string := None;
  par_double_array := {| da_curr := 0; da_a := [] |};
  par_expr_list := None;
  par_m_string := {| cpa_curr := 2; cpa_p := [Some (u "betx"); None] |}
|}.

Definition seq_with_beam (name : string) (beam : option command) : sequence :=
  Sequence (Some (u name)) 0 tbl_twiss beam 0 [] [] 0.

(** A beam command that has been declared but not defined. *)
Definition beam_undefined : command :=
  {| cmd_par := {| cpl_curr := 1; cpl_parameters := [par_double "energy" 1] |};
     cmd_beam_def := 0 |}.

Definition globals_beams : globals :=
  globals_of None
    [seq_with_beam "lhc" (Some (cmd_of [par_double "energy" 450]));
     seq_with_beam "sps" (Some beam_undefined);
     seq_with_beam "ps" None].

(** A registry with the table [twiss] of columns [name] and [s]. *)
Definition globals_registry : globals := {|
  current_sequ := None;
  sequences :=
    {| sl_curr := 0; sl_list := {| nl_curr := 0; nl_names := [] |};
       sl_sequs := [] |};
  table_register :=
    {| tl_names := {| nl_curr := 1; nl_names := [Some (u "twiss")] |};
       tl_tables :=
         [{| tbl_name := Some (u "twiss");
             tbl_columns := {| nl_curr := 2;
                               nl_names := [Some (u "name"); Some (u "s")] |} |}]
    |};
  double_blocks := ∅;
  char_p_blocks := ∅
|}.

(** An engine whose lookup answers with position 5 for every name. *)
Definition madx_wild_index : Clib := {|
  PARAM_TYPE_LOGICAL := 0;
  PARAM_TYPE_INTEGER := 1;
  PARAM_TYPE_DOUBLE := 2;
  PARAM_TYPE_STRING := 3;
  PARAM_TYPE_CONSTRAINT := 4;
  PARAM_TYPE_LOGICAL_ARRAY := 10;
  PARAM_TYPE_INTEGER_ARRAY := 11;
  PARAM_TYPE_DOUBLE_ARRAY := 12;
  PARAM_TYPE_STRING_ARRAY := 13;
  CONSTR_TYPE_MIN := 1;
  CONSTR_TYPE_MAX := 2;
  CONSTR_TYPE_BOTH := 3;
  CONSTR_TYPE_VALUE := 4;
  name_list_pos := fun _ _ => 5;
  table_exists_ := fun _ _ => 0;
  table_get_header := fun _ => no_header;
  table_get_column := fun _ => no_column;
  madx_start := fun g => g;
  madx_finish := fun g => g;
  stolower_nq := List.map ascii_lower;
  pro_input := fun _ g => g;
  evaluate_expression := fun _ g => (g, num 0);
  str_lower := List.map ascii_lower
|}.

(** A header with the key [NAME] given twice. *)
Definition sample_header (table : bytes) : char_p_array :=
  {| cpa_curr := 3;
     cpa_p := [Some (u "@ NAME %05s " ++ [34] ++ u "TWISS" ++ [34]);
               Some (u "@ MASS %le 0.938");
               Some (u "@ NAME %03s " ++ [34] ++ u "SUM" ++ [34])] |}.

Definition madx_header : Clib := ref_clib sample_header no_column.

(** An element whose command holds a parameter of an unknown type. *)
Definition elem_odd : element :=
  {| elem_name := Some (u "m1"); elem_length := num 1;
     elem_def_ := cmd_of [par_double "k1" 3; with_type 99 par_blank] |}.

Definition seq_odd : sequence :=
  seq_of "odd" 0 [node_q1; Node (Some elem_odd) None (Some (u "marker"))].

(** An element whose command has parameters called [name] and [type]. *)
Definition elem_shadow : element :=
  {| elem_name := Some (u "q2"); elem_length := num 4;
     elem_def_ := cmd_of [par_double "name" 1; par_double "type" 2;
                          par_double "k1" 3] |}.

Definition node_shadow : node :=
  Node (Some elem_shadow) None (Some (u "quadrupole")).
Lemma utf8_decode_cons (b0 : Z) (r0 : bytes) :
  utf8_decode (b0 :: r0) =
      if (0 <=? b0) && (b0 <? 0x80) then cons b0 <$> utf8_decode r0
      else if (0xC2 <=? b0) && (b0 <=? 0xDF) then
        match r0 with
        | b1 :: r1 =>
            if is_cont b1
            then cons ((b0 - 0xC0) * 64 + (b1 - 0x80)) <$> utf8_decode r1
            else None
        | _ => None
        end
      else if (0xE0 <=? b0) && (b0 <=? 0xEF) then
        match r0 with
        | b1 :: b2 :: r2 =>
            let c := (b0 - 0xE0) * 4096 + (b1 - 0x80) * 64 + (b2 - 0x80) in
            if is_cont b1 && is_cont b2 && (0x800 <=? c)
               && negb (is_surrogate c)
            then cons c <$> utf8_decode r2
            else None
        | _ => None
        end
      else if (0xF0 <=? b0) && (b0 <=? 0xF4) then
        match r0 with
        | b1 :: b2 :: b3 :: r3 =>
            let c := (b0 - 0xF0) * 262144 + (b1 - 0x80) * 4096
                     + (b2 - 0x80) * 64 + (b3 - 0x80) in
            if is_cont b1 && is_cont b2 && is_cont b3
               && (0x10000 <=? c) && (c <? 0x110000)
            then cons c <$> utf8_decode r3
            else None
        | _ => None
        end
      else None.
Proof. reflexivity. Qed.

Ltac zarith := Z.div_mod_to_equations; lia.

Ltac settle_tests :=
  repeat match goal with
    | |- context [?a <=? ?b] =>
        first [ replace (a <=? b) with true by (symmetry; apply Z.leb_le; zarith)
              | replace (a <=? b) with false by (symmetry; apply Z.leb_gt; zarith) ]
    | |- context [?a <? ?b] =>
        first [ replace (a <? b) with true by (symmetry; apply Z.ltb_lt; zarith)
              | replace (a <? b) with false by (symmetry; apply Z.ltb_ge; zarith) ]
    end.

Ltac tests_to_props :=
  repeat match goal with
    | H : (_ <? _) = true |- _ => apply Z.ltb_lt in H
    | H : (_ <? _) = false |- _ => apply Z.ltb_ge in H
    | H : (_ <=? _) = true |- _ => apply Z.leb_le in H
    | H : (_ <=? _) = false |- _ => apply Z.leb_gt in H
    end.

Lemma utf8_decode_encode_cp (c : Z) (b rest : bytes) :
  utf8_encode_cp c = Some b ->
  utf8_decode (b ++ rest) = cons c <$> utf8_decode rest.
Proof.
  unfold utf8_encode_cp.
  repeat case_match; intros [= <-]; cbn [app]; rewrite utf8_decode_cons;
    unfold is_cont; tests_to_props; cbv zeta.
  - settle_tests. done.
  - settle_tests. cbn [andb]. do 2 f_equal. zarith.
  - replace ((224 + c `div` 4096 - 224) * 4096
             + (128 + (c `div` 64) `mod` 64 - 128) * 64
             + (128 + c `mod` 64 - 128)) with c by zarith.
    match goal with H : is_surrogate c = false |- _ => rewrite H end.
    settle_tests. done.
  - replace ((240 + c `div` 262144 - 240) * 262144
             + (128 + (c `div` 4096) `mod` 64 - 128) * 4096
             + (128 + (c `div` 64) `mod` 64 - 128) * 64
             + (128 + c `mod` 64 - 128)) with c by zarith.
    settle_tests. done.
Qed.

Lemma utf8_encode_cp_no_nul (c : Z) (b : bytes) :
  utf8_encode_cp c = Some b -> c ≠ 0 -> Forall (λ x, x ≠ 0) b.
Proof.
  unfold utf8_encode_cp.
  repeat case_match; intros [= <-] Hc; tests_to_props;
    repeat constructor; zarith.
Qed.

Lemma c_string_app_no_nul (b rest : bytes) :
  Forall (λ x, x ≠ 0) b -> c_string (b ++ rest) = b ++ c_string rest.
Proof.
  induction 1 as [|x b Hx _ IH]; [done|].
  cbn. apply Z.eqb_neq in Hx. by rewrite Hx, IH.
Qed.

Lemma utf8_encode_scalar (s : ustring) :
  Forall scalar_value s -> is_Some (utf8_encode s).
Proof.
  induction 1 as [|c s [Hc Hs] _ [bs IH]]; [by eexists|].
  cbn. rewrite IH. unfold utf8_encode_cp. rewrite Hs.
  repeat case_match; tests_to_props; try lia; by eexists.
Qed.

Lemma utf8_encode_decode (s : ustring) (b : bytes) :
  utf8_encode s = Some b -> 0 ∉ s ->
  c_string b = b /\ utf8_decode b = Some s.
Proof.
  revert b. induction s as [|c s IH]; intros b.
  - intros [= <-] _. done.
  - cbn. destruct (utf8_encode_cp c) as [bc|] eqn:Hc; [|done].
    destruct (utf8_encode s) as [bs|] eqn:Hs; [|done].
    intros [= <-] Hnul.
    apply not_elem_of_cons in Hnul as [Hc0 Hnul].
    destruct (IH bs eq_refl Hnul) as [IH1 IH2].
    split.
    + rewrite c_string_app_no_nul, IH1; [done|].
      eapply utf8_encode_cp_no_nul; eauto.
    + erewrite utf8_decode_encode_cp by done. by rewrite IH2.
Qed.

(** C4, as stated, fails: a host string that holds U+0000 comes back cut at
    that character, because the engine reads a C string. *)
Lemma roundtrip_cut_at_nul :
  Forall scalar_value [97; 0; 98]
  /\ roundtrip [97; 0; 98] = Ok (Some [97])
  /\ roundtrip [97; 0; 98] <> Ok (Some [97; 0; 98]).
Proof.
  split; [|split].
  - repeat constructor; (lia || reflexivity).
  - reflexivity.
  - discriminate.
Qed.

(** C4 (amended): for every host string of Unicode scalar values without
    U+0000, encoding with [_cstr] and decoding the result with [_str] gives
    the string back; encoding the absent value gives the empty byte string,
    which is a pointer and not NULL; decoding NULL gives the absent value,
    and decoding the empty C string gives the empty string, so the two stay
    apart. *)
Theorem str_cstr_roundtrip (s : ustring) :
  Forall scalar_value s ->
  0 ∉ s ->
  roundtrip s = Ok (Some s)
  /\ _cstr None = Ok []
  /\ as_char_p [] <> None
  /\ _str None = Ok None
  /\ _str (as_char_p []) = Ok (Some [])
  /\ _str (as_char_p []) <> _str None.
Proof.
  intros Hs Hnul. split; [|by repeat split].
  unfold roundtrip, _cstr.
  destruct (utf8_encode_scalar s Hs) as [b Hb]. rewrite Hb. cbn.
  destruct (utf8_encode_decode s b Hb Hnul) as [-> ->]. done.
Qed.

Lemma str_cstr_roundtrip_witness :
  roundtrip [116; 233; 0x20AC; 0x1F600] = Ok (Some [116; 233; 0x20AC; 0x1F600]).
Proof.
  apply (str_cstr_roundtrip [116; 233; 0x20AC; 0x1F600]).
  - repeat constructor; (lia || reflexivity).
  - intros H. repeat (apply elem_of_cons in H as [H|H]; [discriminate H|]).
    by apply elem_of_nil in H.
Defined.

(** ** Loops *)

Section Loops.

Context {A B : Type} (f : A -> result B).

Lemma collect_ok (l : list A) (bs : list B) :
  collect f l = Ok bs ->
  length bs = length l
  /\ forall (i : nat) (a : A), l !! i = Some a ->
       exists b, f a = Ok b /\ bs !! i = Some b.
Proof.
  revert bs. induction l as [|a l IH]; intros bs; cbn.
  - intros [= <-]. split; [done|]. intros i a Hi. by destruct i.
  - destruct (f a) as [b|e] eqn:Hfa; cbn; [|done].
    destruct (collect f l) as [bs'|e] eqn:Hl; cbn; [|done].
    intros [= <-]. destruct (IH bs' eq_refl) as [Hlen Hnth].
    split; [by cbn; rewrite Hlen|].
    intros [|i] a' Hi; cbn in *; [|by apply Hnth].
    injection Hi as <-. eauto.
Qed.

Lemma collect_is_ok (l : list A) :
  (forall a, a ∈ l -> is_ok (f a) = true) -> is_ok (collect f l) = true.
Proof.
  induction l as [|a l IH]; intros Hall; cbn; [done|].
  pose proof (Hall a (list_elem_of_here _ _)) as Ha.
  destruct (f a) as [b|e]; [cbn|done].
  assert (is_ok (collect f l) = true) as Hl.
  { apply IH. intros a' Ha'. apply Hall. by apply list_elem_of_further. }
  by destruct (collect f l).
Qed.

Lemma collect_raise (l : list A) (a : A) :
  a ∈ l -> is_ok (f a) = false -> is_ok (collect f l) = false.
Proof.
  intros Hin Ha. destruct (collect f l) as [bs|e] eqn:Hl; [|done].
  apply list_elem_of_lookup in Hin as [i Hi].
  destruct (collect_ok l bs Hl) as [_ Hnth].
  destruct (Hnth i a Hi) as (b & Hb & _). by rewrite Hb in Ha.
Qed.

Lemma collect_exn (l : list A) (e : exn) :
  collect f l = Raise e -> exists a, a ∈ l /\ f a = Raise e.
Proof.
  induction l as [|a l IH]; cbn; [done|].
  destruct (f a) as [b|e'] eqn:Hfa; cbn.
  - destruct (collect f l) as [bs|e'] eqn:Hl; cbn; [done|].
    intros [= ->]. destruct (IH eq_refl) as (a' & Hin & Ha').
    exists a'. split; [by apply list_elem_of_further|done].
  - intros [= ->]. exists a. split; [apply list_elem_of_here|done].
Qed.

End Loops.

Lemma in_tuple_true (x : Z) (t : list Z) : in_tuple x t = true <-> x ∈ t.
Proof.
  unfold in_tuple. rewrite existsb_exists. split.
  - intros (y & Hy & Hxy). apply Z.eqb_eq in Hxy as ->. by apply list_elem_of_In.
  - intros Hx. exists x. split; [by apply list_elem_of_In|apply Z.eqb_refl].
Qed.

Lemma in_tuple_false (x : Z) (t : list Z) : in_tuple x t = false <-> x ∉ t.
Proof.
  rewrite <- in_tuple_true. by destruct (in_tuple x t).
Qed.

Lemma elem_of_seqZ_0 (n i : Z) : i ∈ seqZ 0 n <-> 0 <= i < n.
Proof. rewrite elem_of_seqZ. lia. Qed.

Lemma c_index_lookup {A} (block : list A) (i : nat) :
  c_index block (Z.of_nat i) =
    match block !! i with Some x => Ok x | None => Raise NativeFault end.
Proof.
  unfold c_index. rewrite Nat2Z.id.
  by replace (Z.of_nat i <? 0) with false by (symmetry; apply Z.ltb_ge; lia).
Qed.

(** ** The parameter variant decoder *)

Section Decoder.

Context {clib : Clib}.

(** C8: a parameter record whose type tag is none of the tags
    [_get_param_value] has a branch for makes it raise the [ValueError]
    "Unknown parameter type: {}" formatted with the raw tag; no value is
    returned. *)
Theorem get_param_value_unknown_tag (par : command_parameter) :
  par_type par ∉ recognized_tags ->
  _get_param_value par
  = Raise (ValueError (Msg "Unknown parameter type: {}" [VInt (par_type par)]))
  /\ is_ok (_get_param_value par) = false.
Proof.
  intros Htag. unfold recognized_tags in Htag.
  rewrite !not_elem_of_cons in Htag.
  destruct Htag as (H0 & H1 & H2 & H3 & H4 & H11 & H12 & H13 & _).
  assert (_get_param_value par = Raise (_unknown_parameter_type par)) as ->;
    [|done].
  unfold _get_param_value.
  rewrite (proj2 (in_tuple_false _ _))
    by (rewrite !not_elem_of_cons; auto using not_elem_of_nil).
  rewrite (proj2 (Z.eqb_neq _ PARAM_TYPE_STRING)) by done.
  rewrite (proj2 (Z.eqb_neq _ PARAM_TYPE_CONSTRAINT)) by done.
  rewrite (proj2 (in_tuple_false _ _))
    by (rewrite !not_elem_of_cons; auto using not_elem_of_nil).
  rewrite (proj2 (Z.eqb_neq _ PARAM_TYPE_STRING_ARRAY)) by done.
  done.
Qed.

End Decoder.

Lemma get_param_value_unknown_tag_witness :
  @_get_param_value madx (with_type 10 par_blank)
  = Raise (ValueError (Msg "Unknown parameter type: {}" [VInt 10])).
Proof.
  apply (@get_param_value_unknown_tag madx (with_type 10 par_blank)).
  vm_compute. intros H.
  repeat (apply elem_of_cons in H as [H|H]; [discriminate H|]).
  by apply elem_of_nil in H.
Defined.

Section Arrays.

Context {clib : Clib} (Hok : ClibOk clib).

Lemma array_tag_dispatch (par : command_parameter) :
  par_type par ∈ [PARAM_TYPE_INTEGER_ARRAY; PARAM_TYPE_DOUBLE_ARRAY] ->
  _get_param_value par
  = (l ← collect (_array_item par) (seqZ 0 (da_curr (par_double_array par)));
     Ok (VList l)).
Proof.
  intros Htag. pose proof (tags_distinct _ Hok) as Hnd.
  assert ((par_type par ∉ [PARAM_TYPE_LOGICAL; PARAM_TYPE_INTEGER;
                           PARAM_TYPE_DOUBLE])
          /\ par_type par <> PARAM_TYPE_STRING
          /\ par_type par <> PARAM_TYPE_CONSTRAINT) as (H1 & H2 & H3).
  { rewrite !NoDup_cons in Hnd. rewrite !not_elem_of_cons in Hnd.
    rewrite !elem_of_cons in Htag. rewrite !not_elem_of_cons.
    destruct Htag as [->| [->|[]%elem_of_nil]]; naive_solver. }
  unfold _get_param_value.
  rewrite (proj2 (in_tuple_false _ _) H1).
  rewrite (proj2 (Z.eqb_neq _ _) H2), (proj2 (Z.eqb_neq _ _) H3).
  by rewrite (proj2 (in_tuple_true _ _) Htag).
Qed.

Lemma array_item_slot (par : command_parameter) (ty : expr_type) (i : nat) :
  (par_type par = PARAM_TYPE_INTEGER_ARRAY /\ ty = Tint)
  \/ (par_type par = PARAM_TYPE_DOUBLE_ARRAY /\ ty = Tfloat) ->
  _array_item par (Z.of_nat i)
  = match expr_slot par i, da_a (par_double_array par) !! i with
    | Some None, Some x => apply_type ty x
    | Some (Some e), Some x =>
        s ← _str (expr_string e); Ok (VExpression s x ty)
    | _, _ => Raise NativeFault
    end.
Proof.
  intros Hty. unfold _array_item, expr_slot, _expr.
  assert (py_index _expr_types (par_type par - PARAM_TYPE_LOGICAL_ARRAY)
          = Ok ty) as ->.
  { destruct Hty as [[-> ->]|[-> ->]].
    - rewrite (tag_integer_array _ Hok).
      by replace (PARAM_TYPE_LOGICAL_ARRAY + 1 - PARAM_TYPE_LOGICAL_ARRAY)
        with 1 by lia.
    - rewrite (tag_double_array _ Hok).
      by replace (PARAM_TYPE_LOGICAL_ARRAY + 2 - PARAM_TYPE_LOGICAL_ARRAY)
        with 2 by lia. }
  rewrite !c_index_lookup.
  destruct (par_expr_list par) as [el|]; cbn.
  - rewrite c_index_lookup.
    destruct (el_list el !! i) as [[e|]|]; cbn; [| |done];
      by destruct (da_a (par_double_array par) !! i).
  - by destruct (da_a (par_double_array par) !! i).
Qed.

Lemma str_no_fault (p : char_p) : _str p <> Raise NativeFault.
Proof. destruct p as [b|]; cbn; [|done]. by destruct (utf8_decode _). Qed.

Lemma apply_type_plain (ty : expr_type) (x : double) (v : value) :
  apply_type ty x = Ok v -> provenance v = None.
Proof.
  destruct ty; cbn; [by intros [= <-]| |by intros [= <-]].
  destruct (double_int x); cbn; [by intros [= <-]|done].
Qed.

Lemma apply_type_no_fault (ty : expr_type) (x : double) :
  apply_type ty x <> Raise NativeFault.
Proof. destruct ty; cbn; [done| |done]. by destruct x. Qed.

(** C1 (amended): the list decoded for an array of numbers has one item
    for each of the [curr] numbers, and item [i] follows slot [i] of the
    block of the expression list, whatever that list's own [curr]: a
    non-NULL slot gives an [Expression] that carries the slot's text and
    the [i]-th number; a NULL slot, or an absent list, gives the plain
    number without provenance.  When the two blocks hold at least [curr]
    slots there is no fault, and if moreover the expression texts decode
    and the integers are finite, a list is returned. *)
Theorem array_provenance (par : command_parameter) (ty : expr_type) :
  (par_type par = PARAM_TYPE_INTEGER_ARRAY /\ ty = Tint)
  \/ (par_type par = PARAM_TYPE_DOUBLE_ARRAY /\ ty = Tfloat) ->
  let n := Z.to_nat (da_curr (par_double_array par)) in
  let a := da_a (par_double_array par) in
  let in_blocks :=
    (n <= length a)%nat
    /\ forall el, par_expr_list par = Some el -> (n <= length (el_list el))%nat in
  (forall r, _get_param_value par = Ok r ->
     exists l, r = VList l /\ length l = n
       /\ forall (i : nat) (v : value), l !! i = Some v ->
            exists x, a !! i = Some x
              /\ match expr_slot par i with
                 | Some (Some e) =>
                     exists s, _str (expr_string e) = Ok s
                               /\ v = VExpression s x ty
                 | Some None => apply_type ty x = Ok v /\ provenance v = None
                 | None => False
                 end)
  /\ (in_blocks -> _get_param_value par <> Raise NativeFault)
  /\ (in_blocks ->
      (forall (i : nat) e, (i < n)%nat -> expr_slot par i = Some (Some e) ->
         is_ok (_str (expr_string e)) = true) ->
      (forall (i : nat) x, (i < n)%nat -> a !! i = Some x ->
         expr_slot par i = Some None -> is_ok (apply_type ty x) = true) ->
      is_ok (_get_param_value par) = true).
Proof.
  intros Hty n a in_blocks.
  assert (par_type par ∈ [PARAM_TYPE_INTEGER_ARRAY; PARAM_TYPE_DOUBLE_ARRAY])
    as Htag.
  { rewrite !elem_of_cons. destruct Hty as [[-> _]|[-> _]]; auto. }
  rewrite (array_tag_dispatch par Htag).
  set (items := collect _ _).
  assert (forall (i : nat), (i < n)%nat ->
            seqZ 0 (da_curr (par_double_array par)) !! i = Some (Z.of_nat i))
    as Hseq.
  { intros i Hi. rewrite lookup_seqZ. subst n. lia. }
  split; [|split].
  - intros r Hr. destruct items as [l|e] eqn:Hitems; [|done].
    injection Hr as <-. exists l.
    destruct (collect_ok _ _ _ Hitems) as [Hlen Hnth].
    rewrite length_seqZ in Hlen. split; [done|]. split; [done|].
    intros i v Hv.
    assert (i < n)%nat as Hi.
    { apply lookup_lt_Some in Hv. subst n. lia. }
    destruct (Hnth i _ (Hseq i Hi)) as (b & Hb & Hlb).
    assert (b = v) as -> by congruence.
    rewrite (array_item_slot par ty i Hty) in Hb. fold a in Hb.
    destruct (expr_slot par i) as [[e|]|], (a !! i) as [x|]; try done.
    + exists x. split; [done|].
      destruct (_str (expr_string e)) as [s|]; [|done].
      injection Hb as <-. by exists s.
    + exists x. eauto using apply_type_plain.
  - intros [Ha Hel] Hfault.
    destruct items as [l|e] eqn:Hitems; [done|].
    injection Hfault as ->.
    apply collect_exn in Hitems as (z & Hz & Hitem).
    apply elem_of_seqZ_0 in Hz.
    replace z with (Z.of_nat (Z.to_nat z)) in Hitem by lia.
    rewrite (array_item_slot par ty _ Hty) in Hitem. fold a in Hitem.
    assert (Z.to_nat z < n)%nat as Hi by (subst n; lia).
    destruct (lookup_lt_is_Some_2 a (Z.to_nat z)) as [x Hx]; [lia|].
    rewrite Hx in Hitem. unfold expr_slot in Hitem.
    destruct (par_expr_list par) as [el|].
    + destruct (lookup_lt_is_Some_2 (el_list el) (Z.to_nat z)) as [oe Hoe].
      { specialize (Hel el eq_refl). lia. }
      rewrite Hoe in Hitem. destruct oe as [e|].
      * pose proof (str_no_fault (expr_string e)) as Hs.
        destruct (_str (expr_string e)); cbn in Hitem; congruence.
      * by apply apply_type_no_fault in Hitem.
    + by apply apply_type_no_fault in Hitem.
  - intros [Ha Hel] Hstr Hnum.
    assert (is_ok items = true) as Hitems; [|by destruct items].
    apply collect_is_ok. intros z Hz. apply elem_of_seqZ_0 in Hz.
    replace z with (Z.of_nat (Z.to_nat z)) by lia.
    rewrite (array_item_slot par ty _ Hty). fold a.
    assert (Z.to_nat z < n)%nat as Hi by (subst n; lia).
    destruct (lookup_lt_is_Some_2 a (Z.to_nat z)) as [x Hx]; [lia|].
    rewrite Hx.
    assert (is_Some (expr_slot par (Z.to_nat z))) as [oe Hoe].
    { unfold expr_slot. destruct (par_expr_list par) as [el|]; [|done].
      apply lookup_lt_is_Some_2. specialize (Hel el eq_refl). lia. }
    rewrite Hoe. destruct oe as [e|].
    + specialize (Hstr _ e Hi Hoe).
      by destruct (_str (expr_string e)).
    + by apply (Hnum _ x Hi).
Qed.

End Arrays.

Lemma madx_ok : ClibOk madx.
Proof.
  split; try reflexivity. cbn.
  repeat (apply NoDup_cons; split;
          [rewrite ?not_elem_of_cons; repeat split; (done || apply not_elem_of_nil)|]).
  apply NoDup_nil_2.
Qed.

(** C1, as stated, fails: with an expression list shorter than the numeric
    array, the element past the list's length is decoded from whatever the
    slot holds, here with a provenance; and when the block ends there, the
    read is a fault. *)
Lemma array_short_expr_list :
  (exists el, par_expr_list par_stale_slot = Some el
              /\ el_curr el < da_curr (par_double_array par_stale_slot))
  /\ @_get_param_value madx par_stale_slot
     = Ok (VList [VExpression (Some (u "k1")) (num 1) Tfloat;
                  VExpression (Some (u "old")) (num 2) Tfloat])
  /\ provenance (VExpression (Some (u "old")) (num 2) Tfloat)
     <> None
  /\ @_get_param_value madx par_short_block = Raise NativeFault.
Proof.
  split; [|split; [|split]].
  - eexists. split; [reflexivity|]. cbn. lia.
  - vm_compute. reflexivity.
  - discriminate.
  - vm_compute. reflexivity.
Qed.

Lemma array_provenance_witness :
  @_get_param_value madx par_stale_slot <> Raise NativeFault
  /\ is_ok (@_get_param_value madx par_stale_slot) = true.
Proof.
  pose proof (@array_provenance madx madx_ok par_stale_slot Tfloat
                (or_intror (conj eq_refl eq_refl))) as (_ & Hfault & Htotal).
  assert ((2 <= 2)%nat
          /\ forall el, par_expr_list par_stale_slot = Some el ->
                        (2 <= length (el_list el))%nat) as Hblocks.
  { split; [lia|]. intros el [= <-]. cbn. lia. }
  split; [exact (Hfault Hblocks)|].
  apply (Htotal Hblocks).
  - intros [|[|i]] e Hi; [| |cbn in Hi; lia]; intros [= <-]; reflexivity.
  - intros i x _ _ _. reflexivity.
Defined.

(** ** The command decoder *)

Section CommandDecoder.

Context {clib : Clib}.

#[local] Abbreviation ins :=
  (fun (m : py_dict) (kv : option ustring * value) => <[kv.1 := kv.2]> m).

Lemma foldl_ins_other (kvs : list (option ustring * value)) (acc : py_dict)
    (k : option ustring) :
  (forall (j : nat) kv, kvs !! j = Some kv -> kv.1 <> k) ->
  foldl ins acc kvs !! k = acc !! k.
Proof.
  revert acc. induction kvs as [|kv kvs IH]; intros acc Hk; [done|].
  cbn. rewrite IH.
  - apply lookup_insert_ne. apply (Hk 0%nat kv eq_refl).
  - intros j kv' Hj. apply (Hk (S j) kv' Hj).
Qed.

Lemma foldl_ins_last (kvs : list (option ustring * value)) (acc : py_dict)
    (i : nat) (k : option ustring) (v : value) :
  kvs !! i = Some (k, v) ->
  (forall (j : nat) kv, (i < j)%nat -> kvs !! j = Some kv -> kv.1 <> k) ->
  foldl ins acc kvs !! k = Some v.
Proof.
  revert acc i. induction kvs as [|kv kvs IH]; intros acc i Hi Hlast; [done|].
  destruct i as [|i]; cbn in *.
  - injection Hi as ->. rewrite foldl_ins_other.
    + apply lookup_insert_eq.
    + intros j kv' Hj. apply (Hlast (S j) kv'); [lia|done].
  - apply (IH _ i Hi). intros j kv' Hij Hj.
    apply (Hlast (S j) kv'); [lia|done].
Qed.

Lemma foldl_ins_inv (kvs : list (option ustring * value)) (acc : py_dict)
    (k : option ustring) (v : value) :
  foldl ins acc kvs !! k = Some v ->
  acc !! k = Some v \/ exists i : nat, kvs !! i = Some (k, v).
Proof.
  revert acc. induction kvs as [|[k' v'] kvs IH]; intros acc; [by left|].
  cbn. intros [Hacc|[i Hi]]%IH.
  - destruct (decide (k' = k)) as [->|Hne].
    + rewrite lookup_insert_eq in Hacc. injection Hacc as ->.
      right. by exists 0%nat.
    + rewrite lookup_insert_ne in Hacc by done. by left.
  - right. by exists (S i).
Qed.

Lemma parse_command_fold (cmd : command) (l : list Z) (acc : py_dict) :
  for_each (_parse_command_step cmd) l acc
  = (kvs ← collect (_parse_command_item cmd) l; Ok (foldl ins acc kvs)).
Proof.
  revert acc. induction l as [|i l IH]; intros acc; [done|].
  cbn [for_each collect].
  assert (_parse_command_step cmd acc i
          = (kv ← _parse_command_item cmd i; Ok (ins acc kv))) as -> by done.
  destruct (_parse_command_item cmd i) as [kv|]; [|done].
  cbn [mbind result_bind]. rewrite IH.
  by destruct (collect (_parse_command_item cmd) l).
Qed.

(** C9: [_parse_command] goes through the parameter records in stored
    order and returns a mapping from names to decoded values; a name
    that occurs more than once maps to the value of its last record.
    Every key of the mapping is the name of a record, and a mapping is
    returned whenever every record decodes. *)
Theorem parse_command_last_write_wins (cmd : command) :
  let n := cpl_curr (cmd_par cmd) in
  let ps := cpl_parameters (cmd_par cmd) in
  (forall m, _parse_command cmd = Ok m ->
     (forall (i : nat) par, Z.of_nat i < n -> ps !! i = Some par ->
        exists name v,
          _str (par_name par) = Ok name /\ _get_param_value par = Ok v
          /\ ((forall (j : nat) par', (i < j)%nat -> Z.of_nat j < n ->
                 ps !! j = Some par' -> _str (par_name par') <> Ok name) ->
              m !! name = Some v))
     /\ (forall name v, m !! name = Some v ->
           exists (i : nat) par,
             Z.of_nat i < n /\ ps !! i = Some par
             /\ _str (par_name par) = Ok name
             /\ _get_param_value par = Ok v))
  /\ ((forall i : nat, Z.of_nat i < n ->
         exists par, ps !! i = Some par
           /\ is_ok (_str (par_name par)) = true
           /\ is_ok (_get_param_value par) = true) ->
      is_ok (_parse_command cmd) = true).
Proof.
  intros n ps. unfold _parse_command. rewrite parse_command_fold. fold n.
  assert (forall (i : nat) kvs kv, collect (_parse_command_item cmd) (seqZ 0 n) = Ok kvs ->
            kvs !! i = Some kv ->
            Z.of_nat i < n
            /\ exists par, ps !! i = Some par
                 /\ _str (par_name par) = Ok kv.1
                 /\ _get_param_value par = Ok kv.2) as Hkv.
  { intros i kvs kv Hkvs Hi.
    destruct (collect_ok _ _ _ Hkvs) as [Hlen Hnth].
    rewrite length_seqZ in Hlen.
    assert (Z.of_nat i < n) as Hin by (apply lookup_lt_Some in Hi; lia).
    split; [done|].
    destruct (Hnth i (Z.of_nat i)) as (kv' & Hdec & Hkv').
    { rewrite lookup_seqZ. lia. }
    assert (kv' = kv) as -> by congruence.
    unfold _parse_command_item in Hdec. rewrite c_index_lookup in Hdec. fold ps in Hdec.
    destruct (ps !! i) as [par|]; [cbn in Hdec|done].
    exists par. split; [done|].
    destruct (_str (par_name par)) as [name|]; [cbn in Hdec|done].
    destruct (_get_param_value par) as [v|]; [cbn in Hdec|done].
    by injection Hdec as <-. }
  split.
  - intros m Hm.
    destruct (collect (_parse_command_item cmd) (seqZ 0 n)) as [kvs|] eqn:Hkvs; [|done].
    injection Hm as <-.
    destruct (collect_ok _ _ _ Hkvs) as [Hlen _].
    rewrite length_seqZ in Hlen.
    split.
    + intros i par Hi Hpar.
      destruct (lookup_lt_is_Some_2 kvs i) as [[name v] Hiv]; [lia|].
      destruct (Hkv i kvs _ eq_refl Hiv) as (_ & par' & Hpar' & Hname & Hv).
      assert (par' = par) as -> by congruence.
      exists name, v. split; [done|]. split; [done|].
      intros Hlast. apply (foldl_ins_last kvs _ i); [done|].
      intros j kv Hij Hj Heq.
      destruct (Hkv j kvs _ eq_refl Hj) as (Hjn & parj & Hparj & Hnamej & _).
      apply (Hlast j parj Hij Hjn Hparj). by rewrite Hnamej, Heq.
    + intros name v [Hempty|[i Hi]]%foldl_ins_inv; [done|].
      destruct (Hkv i kvs _ eq_refl Hi) as (Hin & par & Hpar & Hname & Hv).
      by exists i, par.
  - intros Hall.
    assert (is_ok (collect (_parse_command_item cmd) (seqZ 0 n)) = true) as Hok;
      [|by destruct (collect _ _)].
    apply collect_is_ok. intros z Hz. apply elem_of_seqZ_0 in Hz.
    replace z with (Z.of_nat (Z.to_nat z)) by lia.
    destruct (Hall (Z.to_nat z)) as (par & Hpar & Hname & Hv); [lia|].
    unfold _parse_command_item. rewrite c_index_lookup. fold ps. rewrite Hpar. cbn.
    destruct (_str (par_name par)); [cbn|done].
    by destruct (_get_param_value par).
Qed.

End CommandDecoder.

Lemma parse_command_last_write_wins_witness :
  exists m, @_parse_command madx cmd_twice = Ok m
            /\ m !! Some (u "k") = Some (VFloat (num 2)).
Proof.
  pose proof (@parse_command_last_write_wins madx cmd_twice) as [Hlast _].
  exists (<[Some (u "k") := VFloat (num 2)]>
            (<[Some (u "l") := VFloat (num 5)]>
               (<[Some (u "k") := VFloat (num 1)]> ∅))).
  split; [reflexivity|].
  destruct (Hlast _ eq_refl) as [Hrec _].
  destruct (Hrec 2%nat (par_double "k" 2)) as (name & v & Hname & Hv & Hm);
    [cbn; lia|reflexivity|].
  injection Hname as <-. injection Hv as <-.
  apply Hm. intros j par' Hj Hn. cbn in Hn. lia.
Defined.

(** ** Nodes and sequences *)

Section Walker.

Context {clib : Clib} {host : Host}.

(** C10: when the element pointer of a node is set, [_get_node] returns the
    decoding of the element with the base type added under [type],
    whatever the nested-sequence pointer is. *)
Theorem element_branch_first (elem : element) (sequ sequ' : option sequence)
    (base : char_p) :
  _get_node (Node (Some elem) sequ base)
  = (data ← _get_element elem;
     type ← _str base;
     Ok (<[Some (u "type") := of_str type]> data))
  /\ _get_node (Node (Some elem) sequ base)
     = _get_node (Node (Some elem) sequ' base).
Proof. split; reflexivity. Qed.

Lemma collect_nodes_ok (nodes : list node) (curr : Z) (l : list py_dict) :
  collect (fun i => n ← c_index nodes i; _get_node n) (seqZ 0 curr) = Ok l ->
  length l = Z.to_nat curr
  /\ forall (i : nat) d, l !! i = Some d ->
       exists n, nodes !! i = Some n /\ _get_node n = Ok d.
Proof.
  intros Hl. destruct (collect_ok _ _ _ Hl) as [Hlen Hnth].
  rewrite length_seqZ in Hlen. split; [done|].
  intros i d Hd.
  assert (Z.of_nat i < curr) as Hi by (apply lookup_lt_Some in Hd; lia).
  destruct (Hnth i (Z.of_nat i)) as (d' & Hn & Hd').
  { rewrite lookup_seqZ. lia. }
  assert (d' = d) as -> by congruence.
  rewrite c_index_lookup in Hn.
  destruct (nodes !! i) as [n|]; [|done]. by exists n.
Qed.

Lemma collect_nodes_empty (nodes : list node) (curr : Z) (i : nat) (n : node) :
  Z.of_nat i < curr -> nodes !! i = Some n -> is_ok (_get_node n) = false ->
  is_ok (collect (fun i => n ← c_index nodes i; _get_node n) (seqZ 0 curr))
  = false.
Proof.
  intros Hi Hn Hempty.
  apply (collect_raise _ _ (Z.of_nat i)).
  - apply elem_of_seqZ_0. lia.
  - rewrite c_index_lookup, Hn. done.
Qed.

(** C5: an element node decodes to the mapping of the element's command
    with [name], [length] and [type] set from the element and the node; a
    sequence node decodes to the mapping with exactly the keys [type], set
    to "sequence", and [sequence], set to the name of the nested sequence;
    a node with neither pointer raises the [RuntimeError] "Empty node!".
    Both traversals return one mapping per node, in order, and return
    nothing when one of the nodes they go through is empty. *)
Theorem get_node_variants (node : node) :
  (forall elem data name type,
     node_p_elem node = Some elem ->
     _parse_command (elem_def_ elem) = Ok data ->
     _str (elem_name elem) = Ok name ->
     _str (node_base_name node) = Ok type ->
     _get_node node
     = Ok (<[Some (u "type") := of_str type]>
             (<[Some (u "length") := VFloat (elem_length elem)]>
                (<[Some (u "name") := of_str name]> data))))
  /\ (forall sequ name,
        node_p_elem node = None -> node_p_sequ node = Some sequ ->
        _str (seq_name sequ) = Ok name ->
        exists d, _get_node node = Ok d
          /\ dom d = {[Some (u "type"); Some (u "sequence")]}
          /\ d !! Some (u "type") = Some (VStr (u "sequence"))
          /\ d !! Some (u "sequence") = Some (of_str name))
  /\ (node_p_elem node = None -> node_p_sequ node = None ->
      _get_node node
      = Raise (RuntimeError (Msg "Empty node! Please report this incident!" [])))
  /\ (forall g sequence_name seq,
        _find_sequence g sequence_name = Ok (Some seq) ->
        (forall l, get_elements g sequence_name = Ok l ->
           length l = Z.to_nat (seq_nodes_curr seq)
           /\ forall (i : nat) d, l !! i = Some d ->
                exists n, seq_nodes_nodes seq !! i = Some n /\ _get_node n = Ok d)
        /\ (forall l, get_expanded_elements g sequence_name = Ok l ->
              length l = Z.to_nat (seq_n_nodes seq)
              /\ forall (i : nat) d, l !! i = Some d ->
                   exists n, seq_all_nodes seq !! i = Some n /\ _get_node n = Ok d)
        /\ (forall i : nat,
              node_p_elem node = None -> node_p_sequ node = None ->
              (Z.of_nat i < seq_nodes_curr seq ->
               seq_nodes_nodes seq !! i = Some node ->
               is_ok (get_elements g sequence_name) = false)
              /\ (Z.of_nat i < seq_n_nodes seq ->
                  seq_all_nodes seq !! i = Some node ->
                  is_ok (get_expanded_elements g sequence_name) = false))).
Proof.
  destruct node as [pe ps base]. cbn [node_p_elem node_p_sequ node_base_name].
  split; [|split; [|split]].
  - intros elem data name type -> Hdata Hname Htype.
    unfold _get_node, _get_element. cbn [node_p_elem node_base_name].
    by rewrite Hdata, Hname, Htype.
  - intros sequ name -> -> Hname. unfold _get_node. cbn [node_p_elem node_p_sequ].
    rewrite Hname. eexists. split; [reflexivity|]. split; [|split].
    + rewrite dom_insert_L, dom_singleton_L. set_solver.
    + rewrite lookup_insert_ne by (vm_compute; discriminate).
      apply lookup_singleton_eq.
    + apply lookup_insert_eq.
  - by intros -> ->.
  - intros g sequence_name seq Hseq.
    unfold get_elements, get_expanded_elements. rewrite Hseq.
    cbn [mbind result_bind deref].
    split; [|split].
    + apply collect_nodes_ok.
    + apply collect_nodes_ok.
    + intros i -> ->. split; intros Hi Hn.
      * by apply (collect_nodes_empty _ _ i (Node None None base)).
      * by apply (collect_nodes_empty _ _ i (Node None None base)).
Qed.

End Walker.

Lemma get_node_variants_witness :
  (exists d, @_get_node madx node_inner = Ok d
     /\ dom d = {[Some (u "type"); Some (u "sequence")]})
  /\ @_get_node madx node_q1
     = Ok (<[Some (u "type") := VStr (u "quadrupole")]>
             (<[Some (u "length") := VFloat (num 2)]>
                (<[Some (u "name") := VStr (u "q1")]>
                   {[Some (u "k1") := VFloat (num 3)]})))
  /\ is_ok (@get_elements madx host_cython3 globals_sample (Some (u "broken"))) = false.
Proof.
  split; [|split].
  - destruct (@get_node_variants madx host_cython3 node_inner) as (_ & Hseq & _).
    destruct (Hseq seq_inner (Some (u "inner")) eq_refl eq_refl eq_refl)
      as (d & Hd & Hdom & _).
    by exists d.
  - destruct (@get_node_variants madx host_cython3 node_q1) as (Helem & _).
    apply (Helem elem_q1 _ (Some (u "q1")) (Some (u "quadrupole")) eq_refl);
      reflexivity.
  - destruct (@get_node_variants madx host_cython3 node_empty) as (_ & _ & _ & Hwalk).
    destruct (Hwalk globals_sample (Some (u "broken")) seq_broken eq_refl)
      as (_ & _ & Hempty).
    apply (proj1 (Hempty 1%nat eq_refl eq_refl)); [cbn; lia|reflexivity].
Defined.

(** A node with both pointers set decodes as its element. *)
Example get_node_both :
  @_get_node madx node_both = @_get_node madx node_q1
  /\ exists d, @_get_node madx node_both = Ok d
       /\ d !! Some (u "name") = Some (VStr (u "q1"))
       /\ d !! Some (u "sequence") = None.
Proof.
  split; [reflexivity|]. eexists. split; [reflexivity|]. split; reflexivity.
Qed.

(** ** Lookup of sequences by name *)

Section Registry.

Context {clib : Clib} {host : Host}.

Lemma find_sequence_found (g : globals) (sequence_name : option ustring)
    (seq : sequence) :
  _find_sequence g sequence_name = Ok (Some seq)
  <-> _find_sequence_body g sequence_name = Ok seq.
Proof.
  unfold _find_sequence.
  destruct (_find_sequence_body g sequence_name) as [s|e].
  - split; by intros [= ->].
  - split; [|done]. destruct e; try done; by destruct cdef_propagates.
Qed.

Lemma find_sequence_miss (g : globals) (sequence_name : option ustring)
    (e : exn) :
  _find_sequence_body g sequence_name = Raise e -> e <> NativeFault ->
  _find_sequence g sequence_name
  = if cdef_propagates then Raise e else Ok None.
Proof.
  intros Hbody Hne. unfold _find_sequence. rewrite Hbody. by destruct e.
Qed.

(** C7: the claim fails in a build that drops the exception of
    [_find_sequence].  When the engine does not find the name, the body
    of [_find_sequence] raises the [ValueError] "Invalid sequence: {}"
    formatted with the name asked for.  Where that exception is
    propagated, [sequence_exists] returns [False] and [get_elements],
    [get_expanded_elements], [get_twiss] and [get_beam] raise it, as the
    claim says.  Where it is dropped, [_find_sequence] returns NULL:
    [sequence_exists] returns [True] and the four other functions follow
    the NULL pointer.  For a sequence that is found and whose twiss flag
    is not set, [get_twiss] raises the [RuntimeError] "TWISS table
    invalid." and returns the table's name otherwise; a sequence that is
    found is the entry of the registry at the position the engine
    found. *)
Theorem unknown_sequence (g : globals) (sequence_name : option ustring) :
  (forall b, _cstr sequence_name = Ok b ->
     name_list_pos (c_string b) (sl_list (sequences g)) = -1 ->
     let not_found :=
       ValueError (Msg "Invalid sequence: {}" [of_str sequence_name]) in
     _find_sequence_body g sequence_name = Raise not_found
     /\ (cdef_propagates = true ->
         _find_sequence g sequence_name = Raise not_found
         /\ sequence_exists g sequence_name = Ok false
         /\ get_elements g sequence_name = Raise not_found
         /\ get_expanded_elements g sequence_name = Raise not_found
         /\ get_twiss g sequence_name = Raise not_found
         /\ get_beam g sequence_name = Raise not_found)
     /\ (cdef_propagates = false ->
         _find_sequence g sequence_name = Ok None
         /\ sequence_exists g sequence_name = Ok true
         /\ get_elements g sequence_name = Raise NativeFault
         /\ get_expanded_elements g sequence_name = Raise NativeFault
         /\ get_twiss g sequence_name = Raise NativeFault
         /\ get_beam g sequence_name = Raise NativeFault))
  /\ (is_ok (_cstr sequence_name) = false ->
      sequence_exists g sequence_name = Ok (negb cdef_propagates))
  /\ (forall seq, _find_sequence g sequence_name = Ok (Some seq) ->
        (seq_tw_valid seq = 0 ->
         get_twiss g sequence_name
         = Raise (RuntimeError (Msg "TWISS table invalid." [])))
        /\ (seq_tw_valid seq <> 0 ->
            get_twiss g sequence_name = _str (tbl_name (seq_tw_table seq)))
        /\ sequence_exists g sequence_name = Ok true
        /\ exists b (i : nat),
             _cstr sequence_name = Ok b
             /\ name_list_pos (c_string b) (sl_list (sequences g)) = Z.of_nat i
             /\ sl_sequs (sequences g) !! i = Some seq).
Proof.
  split; [|split].
  - intros b Hb Hpos not_found.
    assert (_find_sequence_body g sequence_name = Raise not_found) as Hbody.
    { unfold _find_sequence_body. rewrite Hb. cbn [mbind result_bind].
      by rewrite Hpos. }
    pose proof (find_sequence_miss g sequence_name not_found Hbody) as Hfind.
    unfold sequence_exists, get_elements, get_expanded_elements, get_twiss,
      get_beam.
    split; [done|]. split; intros Hp; rewrite Hp in Hfind;
      rewrite Hfind by done; done.
  - unfold sequence_exists, _find_sequence, _find_sequence_body, _cstr.
    destruct sequence_name as [s|]; [|done].
    destruct (utf8_encode s); [done|]. cbn. by destruct cdef_propagates.
  - intros seq Hfind. unfold get_twiss, sequence_exists. rewrite Hfind.
    cbn [mbind result_bind deref]. split; [|split; [|split]].
    + by intros ->.
    + intros Hvalid. by rewrite (proj2 (Z.eqb_neq _ _) Hvalid).
    + done.
    + apply find_sequence_found in Hfind.
      unfold _find_sequence_body in Hfind.
      destruct (_cstr sequence_name) as [b|]; [|done].
      cbn [mbind result_bind] in Hfind. exists b.
      destruct (name_list_pos _ _ =? -1) eqn:Hmiss; [done|].
      unfold c_index in Hfind.
      destruct (name_list_pos _ _ <? 0) eqn:Hneg; [done|].
      apply Z.ltb_ge in Hneg.
      exists (Z.to_nat (name_list_pos (c_string b) (sl_list (sequences g)))).
      split; [done|]. split; [lia|].
      by destruct (sl_sequs (sequences g) !! _) as [s|]; [injection Hfind as ->|].
Qed.

End Registry.

Lemma unknown_sequence_witness :
  (@sequence_exists madx host_cython0 globals_sample (Some (u "nope")) = Ok true
   /\ @get_twiss madx host_cython0 globals_sample (Some (u "nope"))
      = Raise NativeFault
   /\ @get_beam madx host_cython0 globals_sample (Some (u "nope"))
      = Raise NativeFault)
  /\ (@sequence_exists madx host_cython3 globals_sample (Some (u "nope"))
      = Ok false
      /\ @get_beam madx host_cython3 globals_sample (Some (u "nope"))
         = Raise (ValueError (Msg "Invalid sequence: {}" [VStr (u "nope")])))
  /\ @get_twiss madx host_cython0 globals_sample (Some (u "ring"))
     = Raise (RuntimeError (Msg "TWISS table invalid." []))
  /\ @get_twiss madx host_cython0 globals_sample (Some (u "broken"))
     = Ok (Some (u "twiss")).
Proof.
  split; [|split; [|split]].
  - pose proof (@unknown_sequence madx host_cython0 globals_sample
                  (Some (u "nope"))) as (Hmiss & _ & _).
    destruct (Hmiss (u "nope") eq_refl eq_refl) as (_ & _ & Hdrop).
    destruct (Hdrop eq_refl) as (_ & Hex & _ & _ & Htw & Hbeam).
    by repeat split.
  - pose proof (@unknown_sequence madx host_cython3 globals_sample
                  (Some (u "nope"))) as (Hmiss & _ & _).
    destruct (Hmiss (u "nope") eq_refl eq_refl) as (_ & Hprop & _).
    destruct (Hprop eq_refl) as (_ & Hex & _ & _ & _ & Hbeam).
    by split.
  - pose proof (@unknown_sequence madx host_cython0 globals_sample
                  (Some (u "ring"))) as (_ & _ & Hhit).
    destruct (Hhit seq_ring eq_refl) as (Hinvalid & _).
    by apply Hinvalid.
  - pose proof (@unknown_sequence madx host_cython0 globals_sample
                  (Some (u "broken"))) as (_ & _ & Hhit).
    destruct (Hhit seq_broken eq_refl) as (_ & Hvalid & _).
    rewrite Hvalid; [reflexivity|discriminate].
Defined.

(** ** Table columns *)

Lemma collect_lookup {A B} (f : A -> result B) (l : list A) (bs : list B) :
  length bs = length l ->
  (forall (i : nat) a b, l !! i = Some a -> bs !! i = Some b -> f a = Ok b) ->
  collect f l = Ok bs.
Proof.
  revert bs. induction l as [|a l IH]; intros [|b bs] Hlen Hf; try done.
  cbn. rewrite (Hf 0%nat a b eq_refl eq_refl). cbn.
  rewrite (IH bs); [done|by injection Hlen|].
  intros i a' b' Ha' Hb'. by apply (Hf (S i)).
Qed.

Lemma str_ascii_tag (t : Z) :
  0 <= t < 128 -> _str (as_char_p [t]) = Ok (Some (c_string [t])).
Proof.
  intros Ht. unfold _str, as_char_p. cbn [c_string].
  destruct (t =? 0); [done|].
  rewrite utf8_decode_cons. by settle_tests.
Qed.

Section Columns.

Context {clib : Clib}.

(** C3 (amended): [get_table_column] dispatches on the datatype byte of
    the column info the engine returns.  On [d], with a length that is not
    negative, it returns a view of exactly that length on the engine's
    block, without a copy: the items of the view are those the block holds
    when they are read.  On [S], with a block of non-NULL strings of that
    length, it returns a new array of the byte strings, as they are.  On [V] it raises
    the [ValueError] that names the column and the table.  On any other
    byte below 0x80 it raises the [RuntimeError] that names the tag and
    the column. *)
Theorem table_column_dispatch (g : globals) (table column : option ustring)
    (t c : bytes) :
  _cstr table = Ok t ->
  _cstr column = Ok c ->
  let info := table_get_column g (c_string t) (c_string c) in
  (ci_datatype info = 100 -> 0 <= ci_length info ->
     get_table_column g table column
     = Ok (NdView (ci_data info) (ci_length info))
     /\ forall g' block,
          double_blocks g' !! ci_data info = Some block ->
          ci_length info <= Z.of_nat (length block) ->
          nd_items g' (NdView (ci_data info) (ci_length info))
          = Some (VFloat <$> take (Z.to_nat (ci_length info)) block))
  /\ (ci_datatype info = 83 ->
      forall (block : list char_p) (strs : list bytes),
        char_p_blocks g !! ci_data info = Some block ->
        take (Z.to_nat (ci_length info)) block = Some <$> strs ->
        length strs = Z.to_nat (ci_length info) ->
        get_table_column g table column
        = Ok (NdOwned ((fun b => VBytes (c_string b)) <$> strs))
        /\ forall g',
             nd_items g' (NdOwned ((fun b => VBytes (c_string b)) <$> strs))
             = Some ((fun b => VBytes (c_string b)) <$> strs))
  /\ (ci_datatype info = 86 ->
      get_table_column g table column
      = Raise (ValueError (Msg "Column {!r} is not in table {!r}."
                               [of_str column; of_str table])))
  /\ (ci_datatype info ∉ [100; 83; 86] -> 0 <= ci_datatype info < 128 ->
      get_table_column g table column
      = Raise (RuntimeError (Msg "Unknown datatype {!r} in column {!r}."
                                 [VStr (c_string [ci_datatype info]);
                                  of_str column]))).
Proof.
  intros Ht Hc info. unfold get_table_column. rewrite Ht, Hc.
  cbn [mbind result_bind].
  change (table_get_column g (c_string t) (c_string c)) with info.
  clearbody info.
  split; [|split; [|split]].
  - intros -> Hlen. cbn [Z.eqb Pos.eqb]. unfold PyArray_SimpleNewFromData.
    replace (ci_length info <? 0) with false by (symmetry; apply Z.ltb_ge; lia).
    split; [done|]. intros g' block Hblock Hfits. cbn. rewrite Hblock. cbn.
    by replace (Z.of_nat (length block) <? ci_length info) with false
      by (symmetry; apply Z.ltb_ge; lia).
  - intros -> block strs Hblock Htake Hlen. cbn [Z.eqb Pos.eqb].
    rewrite Hblock. split; [|done].
    rewrite (collect_lookup _ _ ((fun b => VBytes (c_string b)) <$> strs));
      [done|by rewrite length_fmap, length_seqZ|].
    intros i z v Hz Hv. apply lookup_seqZ in Hz as [-> Hi].
    rewrite list_lookup_fmap in Hv.
    destruct (strs !! i) as [s|] eqn:Hs; [|done]. injection Hv as <-.
    rewrite Z.add_0_l, c_index_lookup.
    assert (block !! i = Some (as_char_p s)) as ->; [|done].
    rewrite <- (lookup_take_lt block (Z.to_nat (ci_length info))) by lia.
    by rewrite Htake, list_lookup_fmap, Hs.
  - by intros ->.
  - intros Htag Hascii. rewrite !not_elem_of_cons in Htag.
    destruct Htag as (Hd & HS & HV & _).
    rewrite (proj2 (Z.eqb_neq _ _) Hd), (proj2 (Z.eqb_neq _ _) HS),
      (proj2 (Z.eqb_neq _ _) HV).
    by rewrite (str_ascii_tag _ Hascii).
Qed.

End Columns.

(** C3, as stated, fails.  For a datatype byte above 0x7F the tag does not
    decode as text, and the call ends with [UnicodeDecodeError] before the
    [RuntimeError] is built.  And the strings of a column are returned as
    the bytes the engine holds, not decoded: a string that is not UTF-8
    comes back as it is. *)
Lemma table_column_odd_tag :
  @get_table_column madx_odd_tag globals_table (Some (u "twiss"))
     (Some (u "betx"))
  = Raise UnicodeDecodeError
  /\ failure (@get_table_column madx_odd_tag globals_table (Some (u "twiss"))
                (Some (u "betx")))
     <> Some "RuntimeError"%string
  /\ @get_table_column madx_raw_name globals_raw_name (Some (u "twiss"))
       (Some (u "name"))
     = Ok (NdOwned [VBytes [255]])
  /\ _str (as_char_p [255]) = Raise UnicodeDecodeError.
Proof.
  split; [reflexivity|]. split; [discriminate|]. split; reflexivity.
Qed.

Lemma table_column_dispatch_witness :
  (@get_table_column madx_table globals_table (Some (u "twiss"))
     (Some (u "length"))
   = Ok (NdView 64 2)
   /\ nd_items globals_table (NdView 64 2)
      = Some [VFloat (num 1); VFloat (DFin (5 # 2))])
  /\ @get_table_column madx_table globals_table (Some (u "twiss"))
       (Some (u "name"))
     = Ok (NdOwned [VBytes (u "d1"); VBytes (u "q1")])
  /\ @get_table_column madx_table globals_table (Some (u "twiss"))
       (Some (u "missing"))
     = Raise (ValueError (Msg "Column {!r} is not in table {!r}."
                              [VStr (u "missing"); VStr (u "twiss")]))
  /\ @get_table_column madx_table globals_table (Some (u "twiss"))
       (Some (u "count"))
     = Raise (RuntimeError (Msg "Unknown datatype {!r} in column {!r}."
                                [VStr (u "i"); VStr (u "count")])).
Proof.
  split; [|split; [|split]].
  - destruct (@table_column_dispatch madx_table globals_table
                (Some (u "twiss")) (Some (u "length")) _ _ eq_refl eq_refl)
      as (Hd & _).
    destruct (Hd eq_refl) as [Hview Hitems]; [by vm_compute|].
    split; [exact Hview|].
    apply (Hitems globals_table [num 1; DFin (5 # 2)]);
      [reflexivity|by vm_compute].
  - destruct (@table_column_dispatch madx_table globals_table
                (Some (u "twiss")) (Some (u "name")) _ _ eq_refl eq_refl)
      as (_ & HS & _).
    apply (HS eq_refl [Some (u "d1"); Some (u "q1")] [u "d1"; u "q1"]);
      reflexivity.
  - destruct (@table_column_dispatch madx_table globals_table
                (Some (u "twiss")) (Some (u "missing")) _ _ eq_refl eq_refl)
      as (_ & _ & HV & _).
    apply HV. reflexivity.
  - destruct (@table_column_dispatch madx_table globals_table
                (Some (u "twiss")) (Some (u "count")) _ _ eq_refl eq_refl)
      as (_ & _ & _ & Hother).
    apply Hother.
    + vm_compute. intros H.
      repeat (apply elem_of_cons in H as [H|H]; [discriminate H|]).
      by apply elem_of_nil in H.
    + vm_compute. split; [discriminate|reflexivity].
Defined.

(** ** Table headers *)

Lemma py_slice_strip {A} (q q' : A) (body : list A) :
  py_slice 1 (-1) (q :: body ++ [q']) = body.
Proof.
  unfold py_slice. cbn [length]. rewrite length_app. cbn [length].
  set (n := Z.of_nat (S (length body + 1))).
  change (1 <? 0) with false. change (-1 <? 0) with true. cbv iota.
  replace (Z.min 1 n) with 1 by lia.
  replace (Z.max 0 (-1 + n)) with (n - 1) by lia.
  change (Z.to_nat 1) with 1%nat. cbn [drop].
  replace (Z.to_nat (n - 1 - 1)) with (length body) by lia.
  rewrite drop_0, take_app, Nat.sub_diag, take_0, app_nil_r.
  apply take_ge. lia.
Qed.

Section Headers.

Context {host : Host}.

(** C6 (amended): a header line is split at whitespace into four fields,
    of which the second is the key and the last runs to the end of the
    line.  With the format code [%le] the result is the key with the last
    field read as a float (a [ValueError] if it is no number); with
    another code that ends in [s] it is the key with the last field less
    its first and its last character, which for a quoted text are the
    quotes; with any other code it is the key with the last field as text.
    [* key %le 3.14] gives the key [key] with the float that [float]
    reads from [3.14], and [* key %s "hello"] gives [("key", "hello")]. *)
Theorem split_header_line_dispatch (header_line : bytes)
    (line ignored key kind val : ustring) :
  _str (as_char_p header_line) = Ok (Some line) ->
  py_split 3 line = [ignored; key; kind; val] ->
  (kind = u "%le" ->
     _split_header_line header_line
     = match py_float val with
       | Some d => Ok (key, VFloat d)
       | None =>
           Raise (ValueError
                    (Msg "could not convert string to float" [VStr val]))
       end)
  /\ (kind <> u "%le" -> last kind = Some 115 ->
      _split_header_line header_line = Ok (key, VStr (py_slice 1 (-1) val))
      /\ forall q q' body, val = q :: body ++ [q'] ->
           _split_header_line header_line = Ok (key, VStr body))
  /\ (kind <> u "%le" -> last kind <> Some 115 ->
      _split_header_line header_line = Ok (key, VStr val))
  /\ (forall d, py_float (u "3.14") = Some d ->
        _split_header_line header_number = Ok (u "key", VFloat d))
  /\ _split_header_line header_text = Ok (u "key", VStr (u "hello")).
Proof.
  intros Hline Hsplit. unfold _split_header_line at 1 2 3 4.
  rewrite Hline. cbn [mbind result_bind]. rewrite Hsplit.
  unfold ustring_eqb.
  split; [|split; [|split; [|split]]].
  - intros ->. by rewrite bool_decide_eq_true_2.
  - intros Hkind Hs.
    rewrite (bool_decide_eq_false_2 _ Hkind), (bool_decide_eq_true_2 _ Hs).
    split; [done|]. intros q q' body ->. by rewrite py_slice_strip.
  - intros Hkind Hs.
    by rewrite (bool_decide_eq_false_2 _ Hkind), (bool_decide_eq_false_2 _ Hs).
  - intros d Hd. unfold _split_header_line.
    change (_str (as_char_p header_number))
      with (Ok (Some (u "* key %le 3.14")) : result (option ustring)).
    cbn [mbind result_bind].
    change (py_split 3 (u "* key %le 3.14"))
      with [u "*"; u "key"; u "%le"; u "3.14"].
    change (ustring_eqb (u "%le") (u "%le")) with true. cbv iota.
    by rewrite Hd.
  - reflexivity.
Qed.

End Headers.

(** C6, as stated, fails on its first example: [* key %le value 3.14] has
    five fields, the last field kept is [value 3.14], and what the call
    returns is what [float] makes of that text: a [ValueError], since it
    is no number. *)
Lemma split_header_line_five_fields :
  py_split 3 (u "* key %le value 3.14")
  = [u "*"; u "key"; u "%le"; u "value 3.14"]
  /\ (forall host : Host,
        @_split_header_line host header_five_fields
        = match @py_float host (u "value 3.14") with
          | Some d => Ok (u "key", VFloat d)
          | None =>
              Raise (ValueError (Msg "could not convert string to float"
                                     [VStr (u "value 3.14")]))
          end)
  /\ @_split_header_line host_cython3 header_five_fields
     = Raise (ValueError (Msg "could not convert string to float"
                              [VStr (u "value 3.14")]))
  /\ is_ok (@_split_header_line host_cython3 header_five_fields) = false.
Proof.
  split; [by vm_compute|]. split; [|split; by vm_compute].
  intros host. unfold _split_header_line.
  change (_str (as_char_p header_five_fields))
    with (Ok (Some (u "* key %le value 3.14")) : result (option ustring)).
  cbn [mbind result_bind].
  change (py_split 3 (u "* key %le value 3.14"))
    with [u "*"; u "key"; u "%le"; u "value 3.14"].
  by change (ustring_eqb (u "%le") (u "%le")) with true.
Qed.

Lemma split_header_line_dispatch_witness :
  @_split_header_line host_cython3 header_text
  = Ok (u "key", VStr (u "hello"))
  /\ @_split_header_line host_cython3 (u "@ MASS %le 0.938e0 ")
     = Ok (u "MASS", VFloat (DFin (4224376450473525 # 4503599627370496)))
  /\ @_split_header_line host_cython3 (u "@ COUNT %d 12")
     = Ok (u "COUNT", VStr (u "12"))
  /\ @_split_header_line host_cython3 header_number
     = Ok (u "key", VFloat (DFin (7070651414971679 # 2251799813685248))).
Proof.
  split; [|split; [|split]].
  - destruct (@split_header_line_dispatch host_cython3 header_text
                (u "* key %s " ++ [34] ++ u "hello" ++ [34])
                (u "*") (u "key") (u "%s") ([34] ++ u "hello" ++ [34])
                eq_refl eq_refl) as (_ & Hs & _).
    destruct Hs as [_ Hbody]; [by vm_compute|reflexivity|].
    apply (Hbody 34 34 (u "hello")). reflexivity.
  - destruct (@split_header_line_dispatch host_cython3
                (u "@ MASS %le 0.938e0 ") (u "@ MASS %le 0.938e0 ")
                (u "@") (u "MASS") (u "%le") (u "0.938e0 ")
                eq_refl eq_refl) as (Hle & _).
    rewrite Hle; [by vm_compute|reflexivity].
  - destruct (@split_header_line_dispatch host_cython3 (u "@ COUNT %d 12")
                (u "@ COUNT %d 12")
                (u "@") (u "COUNT") (u "%d") (u "12")
                eq_refl eq_refl) as (_ & _ & Hd & _).
    apply Hd; by vm_compute.
  - destruct (@split_header_line_dispatch host_cython3 header_number
                (u "* key %le 3.14")
                (u "*") (u "key") (u "%le") (u "3.14")
                eq_refl eq_refl) as (_ & _ & _ & Hnum & _).
    apply Hnum. by vm_compute.
Defined.

(** ** The bracket of [start()] and [finish()] *)

Lemma exn_name_known (e : exn) : exn_name e <> "EngineNotStarted"%string.
Proof. by destruct e. Qed.

(** C2, as stated, fails: before [start()], [get_current_sequence] raises
    the [RuntimeError] "No active sequence!", which is what it raises inside
    the bracket as well; and after [finish()] a lookup still answers from
    the engine's state. *)
Lemma call_outside_bracket :
  eng_phase engine_idle = NotStarted
  /\ @call madx host_cython3 call_get_current_sequence engine_idle
     = Raise (RuntimeError (Msg "No active sequence!" []))
  /\ failure (@call madx host_cython3 call_get_current_sequence engine_idle)
     <> Some "EngineNotStarted"%string
  /\ eng_phase (@finish madx (@start madx
                  {| eng_phase := NotStarted; eng_globals := globals_sample |}))
     = Finished
  /\ @call madx host_cython3 (call_sequence_exists (Some (u "ring")))
       (@finish madx (@start madx
          {| eng_phase := NotStarted; eng_globals := globals_sample |}))
     = Ok (globals_sample, ABool true).
Proof.
  split; [reflexivity|]. split; [reflexivity|]. split; [discriminate|].
  split; reflexivity.
Qed.

Section Bracket.

Context {clib : Clib} {host : Host}.

(** C2 (amended): no public function looks at whether [start()] has been
    called: on the same state of the engine a call does the same inside
    and outside the bracket, and no call ends with an error of the name
    EngineNotStarted.  With no current sequence, [get_current_sequence]
    raises the [RuntimeError] "No active sequence!" in every phase. *)
Theorem calls_ignore_bracket (op : operation) (p p' : phase) (g : globals) :
  call op {| eng_phase := p; eng_globals := g |}
  = call op {| eng_phase := p'; eng_globals := g |}
  /\ failure (call op {| eng_phase := p; eng_globals := g |})
     <> Some "EngineNotStarted"%string
  /\ (current_sequ g = None ->
      call call_get_current_sequence {| eng_phase := p; eng_globals := g |}
      = Raise (RuntimeError (Msg "No active sequence!" []))).
Proof.
  split; [reflexivity|]. split.
  - destruct (call op _) as [r|e]; [done|].
    cbn. intros [= He]. by apply exn_name_known in He.
  - intros Hnone. unfold call, get_current_sequence. cbn [eng_globals].
    by rewrite Hnone.
Qed.

End Bracket.

Lemma calls_ignore_bracket_witness :
  @call madx host_cython3 call_get_current_sequence
    {| eng_phase := Finished; eng_globals := globals_sample |}
  = Raise (RuntimeError (Msg "No active sequence!" [])).
Proof.
  apply (@calls_ignore_bracket madx host_cython3 call_get_current_sequence Finished Running
           globals_sample).
  reflexivity.
Defined.

(** * Further properties of the binding *)

(** ** The marshaller, from the engine's side *)

Lemma utf8_encode_cp_scalar (c : Z) (b : bytes) :
  utf8_encode_cp c = Some b -> scalar_value c.
Proof.
  unfold utf8_encode_cp, scalar_value.
  destruct (is_surrogate c) eqn:Hs.
  - unfold is_surrogate in Hs. apply andb_true_iff in Hs as [H1 H2].
    repeat case_match; intros [= <-]; tests_to_props; lia.
  - repeat case_match; intros [= <-]; tests_to_props; (split; [lia|done]).
Qed.

Lemma utf8_decode_step (b : bytes) (s : ustring) :
  utf8_decode b = Some s ->
  (b = [] /\ s = [])
  \/ exists c bc rest s',
       b = bc ++ rest /\ s = c :: s' /\ utf8_encode_cp c = Some bc
       /\ (length rest < length b)%nat /\ utf8_decode rest = Some s'.
Proof.
  destruct b as [|b0 r0]; [intros [= <-]; by left|].
  rewrite utf8_decode_cons. intros Hdec. right.
  destruct ((0 <=? b0) && (b0 <? 128)) eqn:H1.
  { apply andb_true_iff in H1 as [Ha Hb]. tests_to_props.
    destruct (utf8_decode r0) as [s'|] eqn:Hr; [|done]. injection Hdec as <-.
    exists b0, [b0], r0, s'.
    split; [done|]. split; [done|]. split; [|split; [cbn; lia|done]].
    unfold utf8_encode_cp. by settle_tests. }
  destruct ((194 <=? b0) && (b0 <=? 223)) eqn:H2.
  { apply andb_true_iff in H2 as [Ha Hb]. tests_to_props.
    destruct r0 as [|b1 r1]; [done|].
    destruct (is_cont b1) eqn:Hc1; [|done].
    unfold is_cont in Hc1. apply andb_true_iff in Hc1 as [Hc1 Hc1'].
    tests_to_props.
    destruct (utf8_decode r1) as [s'|] eqn:Hr; [|done]. injection Hdec as <-.
    exists ((b0 - 192) * 64 + (b1 - 128)), [b0; b1], r1, s'.
    split; [done|]. split; [done|]. split; [|split; [cbn; lia|done]].
    unfold utf8_encode_cp. settle_tests. do 2 f_equal; [|f_equal]; zarith. }
  destruct ((224 <=? b0) && (b0 <=? 239)) eqn:H3.
  { apply andb_true_iff in H3 as [Ha Hb]. tests_to_props.
    destruct r0 as [|b1 [|b2 r2]]; [done|done|]. cbv zeta in Hdec.
    set (c := (b0 - 224) * 4096 + (b1 - 128) * 64 + (b2 - 128)) in *.
    destruct (is_cont b1 && is_cont b2 && (2048 <=? c) && negb (is_surrogate c))
      eqn:Hc; [|done].
    repeat (apply andb_true_iff in Hc as [Hc ?]).
    unfold is_cont in *.
    repeat match goal with
      | H : (_ && _) = true |- _ => apply andb_true_iff in H as [? ?]
      end.
    tests_to_props.
    destruct (utf8_decode r2) as [s'|] eqn:Hr; [|done]. injection Hdec as <-.
    exists c, [b0; b1; b2], r2, s'.
    split; [done|]. split; [done|]. split; [|split; [cbn; lia|done]].
    unfold utf8_encode_cp.
    destruct (is_surrogate c); [done|].
    assert (0 <= c < 65536) as Hrange by (subst c; lia).
    replace (c <? 0) with false by (symmetry; apply Z.ltb_ge; lia).
    replace (c <? 128) with false by (symmetry; apply Z.ltb_ge; lia).
    replace (c <? 2048) with false by (symmetry; apply Z.ltb_ge; lia).
    replace (c <? 65536) with true by (symmetry; apply Z.ltb_lt; lia).
    do 2 f_equal; [|f_equal; [|f_equal]]; subst c; zarith. }
  destruct ((240 <=? b0) && (b0 <=? 244)) eqn:H4; [|done].
  apply andb_true_iff in H4 as [Ha Hb]. tests_to_props.
  destruct r0 as [|b1 [|b2 [|b3 r3]]]; [done|done|done|]. cbv zeta in Hdec.
  set (c := (b0 - 240) * 262144 + (b1 - 128) * 4096 + (b2 - 128) * 64
            + (b3 - 128)) in *.
  destruct (is_cont b1 && is_cont b2 && is_cont b3 && (65536 <=? c)
            && (c <? 1114112)) eqn:Hc; [|done].
  repeat (apply andb_true_iff in Hc as [Hc ?]).
  unfold is_cont in *.
  repeat match goal with
    | H : (_ && _) = true |- _ => apply andb_true_iff in H as [? ?]
    end.
  tests_to_props.
  destruct (utf8_decode r3) as [s'|] eqn:Hr; [|done]. injection Hdec as <-.
  exists c, [b0; b1; b2; b3], r3, s'.
  split; [done|]. split; [done|]. split; [|split; [cbn; lia|done]].
  unfold utf8_encode_cp.
  replace (c <? 0) with false by (symmetry; apply Z.ltb_ge; lia).
  replace (c <? 128) with false by (symmetry; apply Z.ltb_ge; lia).
  replace (c <? 2048) with false by (symmetry; apply Z.ltb_ge; lia).
  replace (c <? 65536) with false by (symmetry; apply Z.ltb_ge; lia).
  replace (c <? 1114112) with true by (symmetry; apply Z.ltb_lt; lia).
  do 2 f_equal; [|f_equal; [|f_equal; [|f_equal]]]; subst c; zarith.
Qed.

Lemma utf8_decode_encode (b : bytes) (s : ustring) :
  utf8_decode b = Some s -> utf8_encode s = Some b /\ Forall scalar_value s.
Proof.
  remember (length b) as n eqn:Hn. revert b s Hn.
  induction n as [n IH] using lt_wf_ind. intros b s -> Hdec.
  apply utf8_decode_step in Hdec
    as [[-> ->]|(c & bc & rest & s' & -> & -> & Hc & Hlen & Hrest)]; [done|].
  destruct (IH (length rest) Hlen rest s' eq_refl Hrest) as [Henc Hsc].
  cbn. rewrite Hc, Henc. split; [done|].
  constructor; [|done]. by eapply utf8_encode_cp_scalar.
Qed.

Lemma c_string_no_nul (b : bytes) : 0 ∉ c_string b.
Proof.
  induction b as [|x b IH]; cbn; [apply not_elem_of_nil|].
  destruct (x =? 0) eqn:Hx; [apply not_elem_of_nil|].
  apply not_elem_of_cons. split; [|done]. apply Z.eqb_neq in Hx. congruence.
Qed.

Lemma utf8_encode_nul (s : ustring) (b : bytes) :
  utf8_encode s = Some b -> 0 ∈ s -> 0 ∈ b.
Proof.
  revert b. induction s as [|c s IH]; intros b; cbn.
  - intros _ []%elem_of_nil.
  - destruct (utf8_encode_cp c) as [bc|] eqn:Hc; [|done].
    destruct (utf8_encode s) as [bs|]; [|done].
    intros [= <-] [<-|Hin]%elem_of_cons.
    + vm_compute in Hc. injection Hc as <-. apply list_elem_of_here.
    + apply elem_of_app. right. by apply IH.
Qed.

Lemma utf8_encode_all_scalar (s : ustring) (b : bytes) :
  utf8_encode s = Some b -> Forall scalar_value s.
Proof.
  revert b. induction s as [|c s IH]; intros b; cbn; [constructor|].
  destruct (utf8_encode_cp c) as [bc|] eqn:Hc; [|done].
  destruct (utf8_encode s) as [bs|]; [|done]. intros _.
  constructor; [by eapply utf8_encode_cp_scalar|by eapply IH].
Qed.

(** X1: what [_str] decodes from a C string, [_cstr] encodes back to the
    bytes of that C string; the decoded text holds Unicode scalar values
    only and no U+0000. *)
Theorem cstr_str_roundtrip (p : char_p) (s : ustring) :
  _str p = Ok (Some s) ->
  exists b, p = Some b
    /\ _cstr (Some s) = Ok (c_string b)
    /\ Forall scalar_value s
    /\ 0 ∉ s.
Proof.
  destruct p as [b|]; [|done]. cbn.
  destruct (utf8_decode (c_string b)) as [t|] eqn:Hdec; [|done].
  intros [= ->]. exists b.
  destruct (utf8_decode_encode _ _ Hdec) as [Henc Hsc].
  rewrite Henc. split; [done|]. split; [done|]. split; [done|].
  intros Hnul. apply (c_string_no_nul b). by eapply utf8_encode_nul.
Qed.

Lemma cstr_str_roundtrip_witness :
  exists b, Some [116; 195; 169; 0; 120] = Some b
    /\ _cstr (Some [116; 233]) = Ok (c_string b)
    /\ Forall scalar_value [116; 233]
    /\ 0 ∉ [116; 233].
Proof.
  apply (cstr_str_roundtrip (Some [116; 195; 169; 0; 120]) [116; 233]).
  reflexivity.
Defined.

(** X2: encoding a host string with [_cstr] and decoding the result with
    [_str] gives the part of the string before its first U+0000 whenever
    the string holds Unicode scalar values only, and raises
    [UnicodeEncodeError] otherwise; the decoding step never fails. *)
Theorem roundtrip_until_nul (s : ustring) :
  (Forall scalar_value s -> roundtrip s = Ok (Some (c_string s)))
  /\ (~ Forall scalar_value s -> roundtrip s = Raise UnicodeEncodeError).
Proof.
  split.
  - intros Hs. unfold roundtrip, _cstr.
    destruct (utf8_encode_scalar s Hs) as [b Hb]. rewrite Hb.
    cbn [mbind result_bind]. unfold _str, as_char_p.
    assert (exists b', utf8_encode (c_string s) = Some b' /\ c_string b = b')
      as (b' & Hb' & ->).
    { clear Hs. revert b Hb. induction s as [|c s IH]; intros b; cbn.
      - intros [= <-]. by exists [].
      - destruct (utf8_encode_cp c) as [bc|] eqn:Hc; [|done].
        destruct (utf8_encode s) as [bs|] eqn:Hbs; [|done]. intros [= <-].
        destruct (c =? 0) eqn:H0.
        + apply Z.eqb_eq in H0 as ->. vm_compute in Hc. injection Hc as <-.
          by exists [].
        + apply Z.eqb_neq in H0.
          destruct (IH bs eq_refl) as (b' & Hb' & Hcs).
          exists (bc ++ b'). cbn. rewrite Hc, Hb'. split; [done|].
          rewrite c_string_app_no_nul, Hcs; [done|].
          by eapply utf8_encode_cp_no_nul. }
    destruct (utf8_encode_decode _ _ Hb' (c_string_no_nul s)) as [_ ->].
    done.
  - intros Hs. unfold roundtrip, _cstr.
    destruct (utf8_encode s) as [b|] eqn:Hb; [|done].
    destruct Hs. by eapply utf8_encode_all_scalar.
Qed.

Lemma roundtrip_until_nul_witness :
  roundtrip [97; 0x20AC; 0; 98] = Ok (Some [97; 0x20AC])
  /\ roundtrip [97; 0xD800] = Raise UnicodeEncodeError.
Proof.
  split.
  - apply (proj1 (roundtrip_until_nul [97; 0x20AC; 0; 98])).
    repeat constructor; (lia || reflexivity).
  - apply (proj2 (roundtrip_until_nul [97; 0xD800])).
    intros H. apply Forall_cons in H as [_ H]. apply Forall_cons in H as [H _].
    destruct H as [_ H]. discriminate H.
Defined.

(** ** Scalars, constraints and strings *)

Lemma xrange_nonpos (n : Z) : n <= 0 -> xrange n = [].
Proof.
  intros Hn. unfold seqZ. by replace (Z.to_nat n) with 0%nat by lia.
Qed.

Section Variants.

Context {clib : Clib} (Hok : ClibOk clib).

(** X3: for a parameter tagged logical, integer or double the tag selects
    [bool], [int] or [float].  Without an expression the number is
    converted to that type; with an expression the result is an
    [Expression] that carries the text, the number as the engine holds it
    (not converted) and the type, so that no conversion can fail. *)
Theorem scalar_parameter (par : command_parameter) (ty : expr_type) :
  (par_type par = PARAM_TYPE_LOGICAL /\ ty = Tbool)
  \/ (par_type par = PARAM_TYPE_INTEGER /\ ty = Tint)
  \/ (par_type par = PARAM_TYPE_DOUBLE /\ ty = Tfloat) ->
  (par_expr par = None ->
     _get_param_value par = apply_type ty (par_double_value par))
  /\ (forall e s, par_expr par = Some e -> _str (expr_string e) = Ok s ->
        _get_param_value par = Ok (VExpression s (par_double_value par) ty)).
Proof.
  intros Hty.
  assert (in_tuple (par_type par)
            [PARAM_TYPE_LOGICAL; PARAM_TYPE_INTEGER; PARAM_TYPE_DOUBLE] = true)
    as Hin.
  { apply in_tuple_true. rewrite !elem_of_cons.
    destruct Hty as [[-> _]|[[-> _]|[-> _]]]; auto. }
  assert (py_index _expr_types (par_type par) = Ok ty) as Hidx.
  { destruct Hty as [[-> ->]|[[-> ->]|[-> ->]]].
    - by rewrite (tag_logical _ Hok).
    - by rewrite (tag_integer _ Hok).
    - by rewrite (tag_double _ Hok). }
  unfold _get_param_value. rewrite Hin. unfold _expr. rewrite Hidx.
  cbn [mbind result_bind]. split.
  - by intros ->.
  - intros e s -> Hs. by rewrite Hs.
Qed.

(** X4: for a parameter tagged constraint the kind selects the fields of
    the [Constraint]: the lower bound for [MIN], the upper bound for [MAX],
    both for [BOTH], the target for [VALUE], each a float with the text of
    its expression when it has one.  A kind that is none of the four is
    not decoded: the call raises the [ValueError] "Unknown parameter type"
    with the tag of a constraint. *)
Theorem constraint_parameter (par : command_parameter) :
  NoDup [CONSTR_TYPE_MIN; CONSTR_TYPE_MAX; CONSTR_TYPE_BOTH; CONSTR_TYPE_VALUE] ->
  par_type par = PARAM_TYPE_CONSTRAINT ->
  let lo := bound_value (par_min_expr par) (par_c_min par) in
  let hi := bound_value (par_max_expr par) (par_c_max par) in
  let target := bound_value (par_expr par) (par_double_value par) in
  (par_c_type par = CONSTR_TYPE_MIN ->
     _get_param_value par = (x ← lo; Ok (VConstraint None (Some x) None)))
  /\ (par_c_type par = CONSTR_TYPE_MAX ->
      _get_param_value par = (y ← hi; Ok (VConstraint None None (Some y))))
  /\ (par_c_type par = CONSTR_TYPE_BOTH ->
      _get_param_value par
      = (x ← lo; y ← hi; Ok (VConstraint None (Some x) (Some y))))
  /\ (par_c_type par = CONSTR_TYPE_VALUE ->
      _get_param_value par = (v ← target; Ok (VConstraint (Some v) None None)))
  /\ (par_c_type par ∉ [CONSTR_TYPE_MIN; CONSTR_TYPE_MAX; CONSTR_TYPE_BOTH;
                        CONSTR_TYPE_VALUE] ->
      _get_param_value par
      = Raise (ValueError (Msg "Unknown parameter type: {}"
                               [VInt PARAM_TYPE_CONSTRAINT]))).
Proof.
  intros Hkinds Htag lo hi target.
  pose proof (tags_distinct _ Hok) as Hnd.
  rewrite !NoDup_cons, !not_elem_of_cons in Hnd.
  rewrite !NoDup_cons, !not_elem_of_cons in Hkinds.
  assert (forall e v, _expr e v PARAM_TYPE_DOUBLE = bound_value e v) as Hbound.
  { intros e v. unfold _expr, bound_value. by rewrite (tag_double _ Hok). }
  assert (_get_param_value par
          = match _constraint par with
            | Some r => r
            | None => Raise (_unknown_parameter_type par)
            end) as ->.
  { unfold _get_param_value. rewrite Htag.
    rewrite (proj2 (in_tuple_false _ _))
      by (rewrite !not_elem_of_cons; naive_solver).
    rewrite (proj2 (Z.eqb_neq _ PARAM_TYPE_STRING)) by naive_solver.
    rewrite Z.eqb_refl. destruct (_constraint par); [done|].
    rewrite (proj2 (in_tuple_false _ _))
      by (rewrite !not_elem_of_cons; naive_solver).
    by rewrite (proj2 (Z.eqb_neq _ PARAM_TYPE_STRING_ARRAY)) by naive_solver. }
  unfold _constraint, _unknown_parameter_type. rewrite !Hbound, Htag.
  fold lo hi target.
  destruct Hkinds as ((Hab & Hac & Had & _) & (Hbc & Hbd & _) & (Hcd & _) & _).
  split; [|split; [|split; [|split]]].
  - intros ->. by rewrite Z.eqb_refl.
  - intros ->.
    rewrite (proj2 (Z.eqb_neq CONSTR_TYPE_MAX CONSTR_TYPE_MIN)) by congruence.
    by rewrite Z.eqb_refl.
  - intros ->.
    rewrite (proj2 (Z.eqb_neq CONSTR_TYPE_BOTH CONSTR_TYPE_MIN)) by congruence.
    rewrite (proj2 (Z.eqb_neq CONSTR_TYPE_BOTH CONSTR_TYPE_MAX)) by congruence.
    by rewrite Z.eqb_refl.
  - intros ->.
    rewrite (proj2 (Z.eqb_neq CONSTR_TYPE_VALUE CONSTR_TYPE_MIN)) by congruence.
    rewrite (proj2 (Z.eqb_neq CONSTR_TYPE_VALUE CONSTR_TYPE_MAX)) by congruence.
    rewrite (proj2 (Z.eqb_neq CONSTR_TYPE_VALUE CONSTR_TYPE_BOTH)) by congruence.
    by rewrite Z.eqb_refl.
  - rewrite !not_elem_of_cons. intros (H1 & H2 & H3 & H4 & _).
    by rewrite (proj2 (Z.eqb_neq _ _) H1), (proj2 (Z.eqb_neq _ _) H2),
      (proj2 (Z.eqb_neq _ _) H3), (proj2 (Z.eqb_neq _ _) H4).
Qed.

(** X5: a parameter tagged string decodes to its text, and to [None] when
    the engine holds no string.  A parameter tagged array of strings
    decodes to a list with one item for each of the [curr] entries, in
    order; a NULL entry gives [None]; a count that is not positive gives
    the empty list. *)
Theorem string_parameters (par : command_parameter) :
  (par_type par = PARAM_TYPE_STRING ->
     (par_string par = None -> _get_param_value par = Ok VNone)
     /\ (forall s, _str (par_string par) = Ok s ->
           _get_param_value par = Ok (of_str s)))
  /\ (par_type par = PARAM_TYPE_STRING_ARRAY ->
      let n := cpa_curr (par_m_string par) in
      (n <= 0 -> _get_param_value par = Ok (VList []))
      /\ (forall r, _get_param_value par = Ok r ->
            exists l, r = VList l /\ length l = Z.to_nat n
              /\ forall (i : nat) v, l !! i = Some v ->
                   exists p s, cpa_p (par_m_string par) !! i = Some p
                     /\ _str p = Ok s /\ v = of_str s
                     /\ (p = None -> v = VNone))).
Proof.
  pose proof (tags_distinct _ Hok) as Hnd.
  rewrite !NoDup_cons, !not_elem_of_cons in Hnd.
  split.
  - intros Htag.
    assert (_get_param_value par = (s ← _str (par_string par); Ok (of_str s)))
      as ->.
    { unfold _get_param_value. rewrite Htag.
      rewrite (proj2 (in_tuple_false _ _))
        by (rewrite !not_elem_of_cons; naive_solver).
      by rewrite Z.eqb_refl. }
    split; [by intros ->|]. by intros s ->.
  - intros Htag n.
    assert (_get_param_value par
            = (l ← collect (fun i => p ← c_index (cpa_p (par_m_string par)) i;
                                     s ← _str p; Ok (of_str s)) (xrange n);
               Ok (VList l))) as ->.
    { unfold _get_param_value. rewrite Htag.
      rewrite (proj2 (in_tuple_false _ _))
        by (rewrite !not_elem_of_cons; naive_solver).
      rewrite (proj2 (Z.eqb_neq _ PARAM_TYPE_STRING)) by naive_solver.
      rewrite (proj2 (Z.eqb_neq _ PARAM_TYPE_CONSTRAINT)) by naive_solver.
      rewrite (proj2 (in_tuple_false _ _))
        by (rewrite !not_elem_of_cons; naive_solver).
      by rewrite Z.eqb_refl. }
    clear Hnd. split.
    + intros Hn. by rewrite (xrange_nonpos n Hn).
    + intros r Hr.
      destruct (collect _ (xrange n)) as [l|] eqn:Hl; [|done].
      injection Hr as <-. exists l.
      destruct (collect_ok _ _ _ Hl) as [Hlen Hnth].
      rewrite length_seqZ in Hlen. split; [done|]. split; [done|].
      intros i v Hv.
      assert (Z.of_nat i < n) as Hi by (apply lookup_lt_Some in Hv; lia).
      destruct (Hnth i (Z.of_nat i)) as (v' & Hdec & Hv').
      { rewrite lookup_seqZ. lia. }
      assert (v' = v) as -> by congruence.
      rewrite c_index_lookup in Hdec.
      destruct (cpa_p (par_m_string par) !! i) as [p|]; [|done].
      cbn [mbind result_bind] in Hdec.
      destruct (_str p) as [s|] eqn:Hs; [|done]. injection Hdec as <-.
      exists p, s. split; [done|]. split; [done|]. split; [done|].
      intros ->. by injection Hs as <-.
Qed.

End Variants.

Lemma scalar_parameter_witness :
  @_get_param_value madx par_int_expr
  = Ok (VExpression (Some (u "n/2")) (DFin (5 # 2)) Tint)
  /\ @_get_param_value madx (par_double "k" 3) = Ok (VFloat (num 3)).
Proof.
  split.
  - apply (proj2 (@scalar_parameter madx madx_ok par_int_expr Tint
                    (or_intror (or_introl (conj eq_refl eq_refl))))
             {| expr_string := Some (u "n/2") |}); reflexivity.
  - apply (proj1 (@scalar_parameter madx madx_ok (par_double "k" 3) Tfloat
                    (or_intror (or_intror (conj eq_refl eq_refl))))).
    reflexivity.
Defined.

Lemma madx_kinds : NoDup [1; 2; 3; 4].
Proof.
  repeat (apply NoDup_cons; split;
          [rewrite ?not_elem_of_cons; repeat split; (done || apply not_elem_of_nil)|]).
  apply NoDup_nil_2.
Qed.

Lemma constraint_parameter_witness :
  @_get_param_value madx (par_constraint 3)
  = Ok (VConstraint None (Some (VFloat (num 1)))
          (Some (VExpression (Some (u "bmax")) (num 9) Tfloat)))
  /\ @_get_param_value madx (par_constraint 0)
     = Raise (ValueError (Msg "Unknown parameter type: {}" [VInt 4])).
Proof.
  split.
  - destruct (@constraint_parameter madx madx_ok (par_constraint 3)
                madx_kinds eq_refl) as (_ & _ & Hboth & _).
    rewrite Hboth; reflexivity.
  - destruct (@constraint_parameter madx madx_ok (par_constraint 0)
                madx_kinds eq_refl) as (_ & _ & _ & _ & Hnone).
    apply Hnone. vm_compute. intros H.
    repeat (apply elem_of_cons in H as [H|H]; [discriminate H|]).
    by apply elem_of_nil in H.
Defined.

Lemma string_parameters_witness :
  @_get_param_value madx par_strings = Ok (VList [VStr (u "betx"); VNone])
  /\ exists l, VList [VStr (u "betx"); VNone] = VList l /\ length l = 2%nat.
Proof.
  split; [reflexivity|].
  destruct (@string_parameters madx madx_ok par_strings) as [_ Harr].
  destruct (Harr eq_refl) as [_ Hlist].
  destruct (Hlist _ eq_refl) as (l & Hl & Hlen & _).
  by exists l.
Defined.

(** ** Lookups through the registries *)

Lemma cstr_raises (s : option ustring) (e : exn) :
  _cstr s = Raise e -> e = UnicodeEncodeError.
Proof.
  destruct s as [t|]; cbn; [|done]. destruct (utf8_encode t); [done|].
  by intros [= <-].
Qed.

Lemma c_index_raises {A} (block : list A) (i : Z) (e : exn) :
  c_index block i = Raise e -> e = NativeFault.
Proof.
  unfold c_index. destruct (i <? 0); [by intros [= <-]|].
  destruct (block !! Z.to_nat i); [done|]. by intros [= <-].
Qed.

Section Lookups.

Context {clib : Clib} {host : Host}.

Lemma find_sequence_body_raises (g : globals)
    (sequence_name : option ustring) (e : exn) :
  _find_sequence_body g sequence_name = Raise e ->
  e = UnicodeEncodeError
  \/ e = ValueError (Msg "Invalid sequence: {}" [of_str sequence_name])
  \/ e = NativeFault.
Proof.
  unfold _find_sequence_body.
  destruct (_cstr sequence_name) as [b|e'] eqn:Hb; cbn [mbind result_bind].
  - destruct (_ =? -1).
    + intros [= <-]. auto.
    + intros ->%c_index_raises. auto.
  - intros [= <-]. apply cstr_raises in Hb. auto.
Qed.

Lemma find_sequence_raise (g : globals) (sequence_name : option ustring)
    (e : exn) :
  _find_sequence g sequence_name = Raise e ->
  _find_sequence_body g sequence_name = Raise e
  /\ (e = NativeFault \/ (cdef_propagates = true /\ is_ValueError e = true)).
Proof.
  unfold _find_sequence.
  destruct (_find_sequence_body g sequence_name) as [seq|e'] eqn:Hbody;
    [done|].
  destruct (find_sequence_body_raises _ _ _ Hbody) as [-> | [-> | ->]].
  - destruct cdef_propagates; [|done]. intros [= <-]. auto.
  - destruct cdef_propagates; [|done]. intros [= <-]. auto.
  - intros [= <-]. auto.
Qed.

(** X6: [sequence_exists] returns [True] exactly when [_find_sequence]
    returns to it, with a sequence or with NULL.  In a build that drops
    the exception of [_find_sequence] it never returns [False]: for a
    name the lookup refuses it returns [True], and [get_twiss],
    [get_beam], [get_elements] and [get_expanded_elements] follow the NULL
    pointer.  In a build that propagates the exception, [False] means the
    lookup has raised an error of the class [ValueError], which those four
    functions raise as well.  [sequence_exists] itself fails in one case
    only: the engine answers with a position that is not -1 and lies
    outside its block of sequences. *)
Theorem sequence_exists_agrees (g : globals) (sequence_name : option ustring) :
  (sequence_exists g sequence_name = Ok true
   <-> is_ok (_find_sequence g sequence_name) = true)
  /\ (cdef_propagates = false ->
      sequence_exists g sequence_name <> Ok false
      /\ forall e, _find_sequence_body g sequence_name = Raise e ->
           e <> NativeFault ->
           sequence_exists g sequence_name = Ok true
           /\ get_twiss g sequence_name = Raise NativeFault
           /\ get_beam g sequence_name = Raise NativeFault
           /\ get_elements g sequence_name = Raise NativeFault
           /\ get_expanded_elements g sequence_name = Raise NativeFault)
  /\ (sequence_exists g sequence_name = Ok false ->
      cdef_propagates = true
      /\ exists e, is_ValueError e = true
           /\ _find_sequence g sequence_name = Raise e
           /\ get_twiss g sequence_name = Raise e
           /\ get_beam g sequence_name = Raise e
           /\ get_elements g sequence_name = Raise e
           /\ get_expanded_elements g sequence_name = Raise e)
  /\ (forall e, sequence_exists g sequence_name = Raise e ->
        e = NativeFault
        /\ exists b, _cstr sequence_name = Ok b
             /\ name_list_pos (c_string b) (sl_list (sequences g)) <> -1
             /\ c_index (sl_sequs (sequences g))
                  (name_list_pos (c_string b) (sl_list (sequences g)))
                = Raise NativeFault).
Proof.
  unfold sequence_exists, get_twiss, get_beam, get_elements,
    get_expanded_elements.
  split; [|split; [|split]].
  - destruct (_find_sequence g sequence_name) as [p|e]; [done|].
    cbn. split; [|done]. by destruct (is_ValueError e).
  - intros Hdrop. split.
    + destruct (_find_sequence g sequence_name) as [p|e] eqn:Hfind; [done|].
      destruct (find_sequence_raise _ _ _ Hfind) as [_ [-> | [Hp _]]];
        [done|congruence].
    + intros e Hbody Hne.
      rewrite (find_sequence_miss g sequence_name e Hbody Hne), Hdrop. done.
  - destruct (_find_sequence g sequence_name) as [p|e] eqn:Hfind; [done|].
    destruct (is_ValueError e) eqn:He; [|done]. intros _.
    destruct (find_sequence_raise _ _ _ Hfind) as [_ [-> | [Hp _]]]; [done|].
    split; [done|]. by exists e.
  - intros e'.
    destruct (_find_sequence g sequence_name) as [p|e] eqn:Hfind; [done|].
    destruct (is_ValueError e) eqn:He; [done|]. intros [= <-].
    destruct (find_sequence_raise _ _ _ Hfind) as [Hbody [-> | [_ Hv]]];
      [|congruence].
    split; [done|]. unfold _find_sequence_body in Hbody.
    destruct (_cstr sequence_name) as [b|e0] eqn:Hb;
      cbn [mbind result_bind] in Hbody.
    2:{ injection Hbody as ->. by apply cstr_raises in Hb. }
    exists b. split; [done|].
    destruct (_ =? -1) eqn:Hpos; [done|].
    apply Z.eqb_neq in Hpos. done.
Qed.

(** X7: for a sequence that is found, [get_beam] returns the decoded beam
    command exactly when a beam is attached, its [beam_def] flag is set
    and the command decodes; with no beam or a beam whose flag is 0 it
    raises the [RuntimeError] "No beam attached to {}" with the name asked
    for. *)
Theorem get_beam_cases (g : globals) (sequence_name : option ustring)
    (seq : sequence) :
  _find_sequence g sequence_name = Ok (Some seq) ->
  let no_beam :=
    RuntimeError (Msg "No beam attached to {}" [of_str sequence_name]) in
  ((seq_beam seq = None
    \/ exists beam, seq_beam seq = Some beam /\ cmd_beam_def beam = 0) ->
   get_beam g sequence_name = Raise no_beam)
  /\ (forall d, get_beam g sequence_name = Ok d <->
        exists beam, seq_beam seq = Some beam /\ cmd_beam_def beam <> 0
          /\ _parse_command beam = Ok d).
Proof.
  intros Hfind no_beam. unfold get_beam. rewrite Hfind.
  cbn [mbind result_bind deref]. fold no_beam. split.
  - intros [->|(beam & -> & ->)]; done.
  - intros d. destruct (seq_beam seq) as [beam|]; [|split; [done|]].
    + destruct (cmd_beam_def beam =? 0) eqn:Hdef.
      * apply Z.eqb_eq in Hdef. split; [done|].
        intros (beam' & [= <-] & Hne & _). done.
      * apply Z.eqb_neq in Hdef. split; [by exists beam|].
        by intros (beam' & [= <-] & _ & Hd).
    + by intros (beam & Hb & _).
Qed.

(** X8: [get_sequences] returns the names of the first [curr] sequences
    of the engine's block, in the order of the block; it returns the list
    whenever the block holds that many sequences and their names
    decode. *)
Theorem get_sequences_names (g : globals) :
  let n := sl_curr (sequences g) in
  let block := sl_sequs (sequences g) in
  (forall l, get_sequences g = Ok l ->
     length l = Z.to_nat n
     /\ forall (i : nat) s, l !! i = Some s ->
          exists seq, block !! i = Some seq /\ _str (seq_name seq) = Ok s)
  /\ ((Z.to_nat n <= length block)%nat ->
      (forall (i : nat) seq, Z.of_nat i < n -> block !! i = Some seq ->
         is_ok (_str (seq_name seq)) = true) ->
      is_ok (get_sequences g) = true).
Proof.
  intros n block. unfold get_sequences. fold n block. split.
  - intros l Hl. destruct (collect_ok _ _ _ Hl) as [Hlen Hnth].
    rewrite length_seqZ in Hlen. split; [done|].
    intros i s Hs.
    assert (Z.of_nat i < n) as Hi by (apply lookup_lt_Some in Hs; lia).
    destruct (Hnth i (Z.of_nat i)) as (s' & Hdec & Hs').
    { rewrite lookup_seqZ. lia. }
    assert (s' = s) as -> by congruence.
    rewrite c_index_lookup in Hdec.
    destruct (block !! i) as [seq|]; [|done]. by exists seq.
  - intros Hblock Hnames. apply collect_is_ok. intros z Hz.
    apply elem_of_seqZ_0 in Hz.
    replace z with (Z.of_nat (Z.to_nat z)) by lia.
    rewrite c_index_lookup.
    destruct (lookup_lt_is_Some_2 block (Z.to_nat z)) as [seq Hseq]; [lia|].
    rewrite Hseq. apply (Hnames (Z.to_nat z)); [lia|done].
Qed.

(** X9: [get_table_columns] raises the [ValueError] "Invalid table: {!r}"
    with the name asked for when the engine answers -1.  For a table the
    engine finds in its block, with a block of column names of at least
    [curr] entries none of which is NULL, it returns the first [curr]
    names as byte strings, in order; and whatever list it returns is that
    list of names. *)
Theorem get_table_columns_cases (g : globals) (table : option ustring)
    (b : bytes) :
  _cstr table = Ok b ->
  let index := name_list_pos (c_string b) (tl_names (table_register g)) in
  (index = -1 ->
     get_table_columns g table
     = Raise (ValueError (Msg "Invalid table: {!r}" [of_str table])))
  /\ (forall (i : nat) t (names : list bytes),
        index = Z.of_nat i ->
        tl_tables (table_register g) !! i = Some t ->
        take (Z.to_nat (nl_curr (tbl_columns t))) (nl_names (tbl_columns t))
        = Some <$> names ->
        length names = Z.to_nat (nl_curr (tbl_columns t)) ->
        get_table_columns g table
        = Ok ((fun name => VBytes (c_string name)) <$> names))
  /\ (forall l, get_table_columns g table = Ok l ->
        exists (i : nat) t,
          index = Z.of_nat i /\ tl_tables (table_register g) !! i = Some t
          /\ length l = Z.to_nat (nl_curr (tbl_columns t))
          /\ forall (j : nat) v, l !! j = Some v ->
               exists name, nl_names (tbl_columns t) !! j = Some (Some name)
                 /\ v = VBytes (c_string name)).
Proof.
  intros Hb index. unfold get_table_columns. rewrite Hb.
  cbn [mbind result_bind]. fold index. split; [|split].
  - by intros ->.
  - intros i t names Hi Ht Htake Hlen. rewrite Hi.
    replace (Z.of_nat i =? -1) with false by (symmetry; apply Z.eqb_neq; lia).
    rewrite c_index_lookup, Ht. cbn [mbind result_bind]. unfold _name_list.
    apply collect_lookup; [by rewrite length_fmap, length_seqZ|].
    intros j z v Hz Hv. apply lookup_seqZ in Hz as [-> Hj].
    rewrite list_lookup_fmap in Hv.
    destruct (names !! j) as [name|] eqn:Hname; [|done]. injection Hv as <-.
    rewrite Z.add_0_l, c_index_lookup.
    assert (nl_names (tbl_columns t) !! j = Some (as_char_p name)) as ->;
      [|done].
    rewrite <- (lookup_take_lt _ (Z.to_nat (nl_curr (tbl_columns t)))) by lia.
    by rewrite Htake, list_lookup_fmap, Hname.
  - intros l. destruct (index =? -1) eqn:Hmiss; [done|].
    unfold c_index. destruct (index <? 0) eqn:Hneg; [done|].
    apply Z.ltb_ge in Hneg.
    destruct (tl_tables (table_register g) !! Z.to_nat index) as [t|] eqn:Ht;
      [|done].
    cbn [mbind result_bind]. unfold _name_list. intros Hl.
    exists (Z.to_nat index), t. split; [lia|]. split; [done|].
    destruct (collect_ok _ _ _ Hl) as [Hlen Hnth].
    rewrite length_seqZ in Hlen. split; [done|].
    intros j v Hv.
    assert (Z.of_nat j < nl_curr (tbl_columns t)) as Hj
      by (apply lookup_lt_Some in Hv; lia).
    destruct (Hnth j (Z.of_nat j)) as (v' & Hdec & Hv').
    { rewrite lookup_seqZ. lia. }
    assert (v' = v) as -> by congruence.
    rewrite c_index_lookup in Hdec.
    destruct (nl_names (tbl_columns t) !! j) as [[name|]|]; [|done|done].
    exists name. split; [done|]. cbn in Hdec. by injection Hdec as <-.
Qed.

End Lookups.

Lemma sequence_exists_agrees_witness :
  (@sequence_exists madx host_cython0 globals_sample (Some (u "nope"))
   = Ok true
   /\ @get_elements madx host_cython0 globals_sample (Some (u "nope"))
      = Raise NativeFault)
  /\ (exists e, is_ValueError e = true
        /\ @get_elements madx host_cython3 globals_sample (Some (u "nope"))
           = Raise e)
  /\ @sequence_exists madx_wild_index host_cython3 globals_sample
       (Some (u "ring"))
     = Raise NativeFault.
Proof.
  split; [|split].
  - destruct (@sequence_exists_agrees madx host_cython0 globals_sample
                (Some (u "nope"))) as (_ & Hdrop & _).
    destruct (Hdrop eq_refl) as [_ Hmiss].
    destruct (Hmiss (ValueError (Msg "Invalid sequence: {}" [VStr (u "nope")]))
                eq_refl) as (Hex & _ & _ & Hel & _); [discriminate|].
    by split.
  - destruct (@sequence_exists_agrees madx host_cython3 globals_sample
                (Some (u "nope"))) as (_ & _ & Hfalse & _).
    destruct (Hfalse eq_refl) as (_ & e & He & _ & _ & _ & Hel & _).
    by exists e.
  - destruct (@sequence_exists_agrees madx_wild_index host_cython3
                globals_sample (Some (u "ring"))) as (_ & _ & _ & Hraise).
    destruct (@sequence_exists madx_wild_index host_cython3 globals_sample
                (Some (u "ring"))) as [r|e] eqn:Hex; [discriminate Hex|].
    by destruct (Hraise e eq_refl) as [-> _].
Defined.

Lemma get_beam_cases_witness :
  @get_beam madx host_cython3 globals_beams (Some (u "sps"))
  = Raise (RuntimeError (Msg "No beam attached to {}" [VStr (u "sps")]))
  /\ @get_beam madx host_cython3 globals_beams (Some (u "ps"))
     = Raise (RuntimeError (Msg "No beam attached to {}" [VStr (u "ps")]))
  /\ @get_beam madx host_cython3 globals_beams (Some (u "lhc"))
     = Ok {[Some (u "energy") := VFloat (num 450)]}.
Proof.
  split; [|split].
  - apply (@get_beam_cases madx host_cython3 globals_beams (Some (u "sps"))
             (seq_with_beam "sps" (Some beam_undefined)) eq_refl).
    right. by exists beam_undefined.
  - apply (@get_beam_cases madx host_cython3 globals_beams (Some (u "ps"))
             (seq_with_beam "ps" None) eq_refl).
    by left.
  - apply (@get_beam_cases madx host_cython3 globals_beams (Some (u "lhc"))
             (seq_with_beam "lhc" (Some (cmd_of [par_double "energy" 450])))
             eq_refl).
    exists (cmd_of [par_double "energy" 450]).
    split; [reflexivity|]. split; [discriminate|reflexivity].
Defined.

Lemma get_sequences_names_witness :
  is_ok (@get_sequences globals_sample) = true.
Proof.
  apply (proj2 (get_sequences_names globals_sample)).
  - cbn. lia.
  - intros [|[|[|i]]] seq Hi; cbn in Hi; [| | |lia]; by intros [= <-].
Defined.

Lemma get_table_columns_cases_witness :
  @get_table_columns madx globals_registry (Some (u "summ"))
  = Raise (ValueError (Msg "Invalid table: {!r}" [VStr (u "summ")]))
  /\ @get_table_columns madx globals_registry (Some (u "twiss"))
     = Ok [VBytes (u "name"); VBytes (u "s")].
Proof.
  split.
  - apply (@get_table_columns_cases madx globals_registry (Some (u "summ"))
             (u "summ") eq_refl).
    reflexivity.
  - destruct (@get_table_columns_cases madx globals_registry
                (Some (u "twiss")) (u "twiss") eq_refl) as (_ & Hhit & _).
    apply (Hhit 0%nat
             {| tbl_name := Some (u "twiss");
                tbl_columns := {| nl_curr := 2;
                                  nl_names := [Some (u "name"); Some (u "s")] |} |}
             [u "name"; u "s"]); reflexivity.
Defined.

(** ** Names as C strings *)

Lemma c_string_app_nul (b1 b2 : bytes) :
  c_string (b1 ++ 0 :: b2) = c_string b1.
Proof.
  induction b1 as [|x b1 IH]; [done|]. cbn. by rewrite IH.
Qed.

Lemma utf8_encode_app (s1 s2 : ustring) :
  utf8_encode (s1 ++ s2)
  = match utf8_encode s1, utf8_encode s2 with
    | Some b1, Some b2 => Some (b1 ++ b2)
    | _, _ => None
    end.
Proof.
  induction s1 as [|c s1 IH]; cbn.
  - by destruct (utf8_encode s2).
  - rewrite IH. destruct (utf8_encode_cp c) as [bc|]; [|done].
    destruct (utf8_encode s1) as [b1|]; [|done].
    destruct (utf8_encode s2) as [b2|]; [|done].
    by rewrite app_assoc.
Qed.

Lemma cstr_cut_at_nul (s1 s2 : ustring) :
  Forall scalar_value s1 -> Forall scalar_value s2 ->
  exists b b1, _cstr (Some (s1 ++ 0 :: s2)) = Ok b
    /\ _cstr (Some s1) = Ok b1
    /\ c_string b = c_string b1.
Proof.
  intros [b1 H1]%utf8_encode_scalar [b2 H2]%utf8_encode_scalar.
  exists (b1 ++ 0 :: b2), b1. unfold _cstr.
  rewrite utf8_encode_app, H1. cbn [utf8_encode]. rewrite H2.
  change (utf8_encode_cp 0) with (Some [0]). cbn [app].
  split; [done|]. split; [done|]. apply c_string_app_nul.
Qed.

Section CStrings.

Context {clib : Clib} {host : Host}.

(** X10: a name reaches the engine as a C string.  Text after a U+0000 is
    not part of the lookup or of the command: with a name [s1 0 s2] the
    lookups of sequences and tables find what they find for [s1], the
    functions that read a found sequence return what they return for
    [s1], and [input] sends the command [s1].  The absent name is looked up
    as the empty name. *)
Theorem names_are_c_strings (g : globals) (s1 s2 : ustring) :
  Forall scalar_value s1 -> Forall scalar_value s2 ->
  let cut := Some (s1 ++ 0 :: s2) in
  sequence_exists g cut = sequence_exists g (Some s1)
  /\ (forall seq, _find_sequence g cut = Ok seq
                  <-> _find_sequence g (Some s1) = Ok seq)
  /\ (is_ok (_find_sequence g (Some s1)) = true ->
      get_twiss g cut = get_twiss g (Some s1)
      /\ get_elements g cut = get_elements g (Some s1)
      /\ get_expanded_elements g cut = get_expanded_elements g (Some s1))
  /\ table_exists g cut = table_exists g (Some s1)
  /\ input g cut = input g (Some s1)
  /\ sequence_exists g None = sequence_exists g (Some [])
  /\ table_exists g None = table_exists g (Some [])
  /\ input g None = input g (Some []).
Proof.
  intros Hs1 Hs2 cut.
  destruct (cstr_cut_at_nul s1 s2 Hs1 Hs2) as (b & b1 & Hb & Hb1 & Hcut).
  fold cut in Hb.
  assert (_find_sequence_body g cut = _find_sequence_body g (Some s1)
          \/ exists m m',
               _find_sequence_body g cut = Raise (ValueError m)
               /\ _find_sequence_body g (Some s1) = Raise (ValueError m'))
    as Hbody.
  { unfold _find_sequence_body. rewrite Hb, Hb1. cbn [mbind result_bind].
    rewrite Hcut. destruct (_ =? -1); [right; by eexists _, _|by left]. }
  assert (forall seq, _find_sequence g cut = Ok seq
                      <-> _find_sequence g (Some s1) = Ok seq) as Hfind.
  { intros seq. unfold _find_sequence.
    destruct Hbody as [->|(m & m' & -> & ->)]; [done|].
    by destruct cdef_propagates. }
  split; [|split; [exact Hfind|split; [|split; [|split]]]].
  - unfold sequence_exists, _find_sequence.
    destruct Hbody as [->|(m & m' & -> & ->)]; [done|].
    by destruct cdef_propagates.
  - intros Hfound.
    destruct (_find_sequence g (Some s1)) as [p|] eqn:H1; [|done].
    unfold get_twiss, get_elements, get_expanded_elements.
    by rewrite H1, (proj2 (Hfind p) eq_refl).
  - unfold table_exists. rewrite Hb, Hb1. cbn [mbind result_bind].
    by rewrite Hcut.
  - unfold input. rewrite Hb, Hb1. cbn [mbind result_bind]. by rewrite Hcut.
  - split; [|split; reflexivity].
    unfold sequence_exists, _find_sequence, _find_sequence_body.
    cbn [_cstr utf8_encode]. cbn [mbind result_bind].
    destruct (_ =? -1); [by destruct cdef_propagates|done].
Qed.

End CStrings.

Lemma names_are_c_strings_witness :
  @sequence_exists madx host_cython3 globals_sample (Some (u "ring" ++ 0 :: u "zzz"))
  = Ok true
  /\ @get_twiss madx host_cython3 globals_sample (Some (u "broken" ++ 0 :: u "zzz"))
     = Ok (Some (u "twiss")).
Proof.
  destruct (@names_are_c_strings madx host_cython3 globals_sample (u "ring") (u "zzz"))
    as (Hex & _); [repeat constructor; (lia || reflexivity)..|].
  destruct (@names_are_c_strings madx host_cython3 globals_sample (u "broken") (u "zzz"))
    as (_ & _ & Hread & _); [repeat constructor; (lia || reflexivity)..|].
  split.
  - rewrite Hex. reflexivity.
  - rewrite (proj1 (Hread eq_refl)). reflexivity.
Defined.

(** ** Header lines and the summary of a table *)

Lemma drop_while_head {A} (p : A -> bool) (l : list A) (x : A) (r : list A) :
  drop_while p l = x :: r -> p x = false.
Proof.
  induction l as [|y l IH]; cbn; [done|].
  destruct (p y) eqn:Hy; [done|]. by intros [= <- _].
Qed.

Lemma take_while_all {A} (p : A -> bool) (l : list A) (x : A) :
  x ∈ take_while p l -> p x = true.
Proof.
  induction l as [|y l IH]; cbn; [by intros []%elem_of_nil|].
  destruct (p y) eqn:Hy; [|by intros []%elem_of_nil].
  intros [->|Hin]%elem_of_cons; [done|by apply IH].
Qed.

Lemma py_split_length (n : nat) (s : ustring) :
  (length (py_split n s) <= S n)%nat.
Proof.
  revert s. induction n as [|n IH]; intros s; cbn [py_split];
    destruct (drop_while py_isspace s) as [|c r]; cbn [length]; try lia.
  specialize (IH (drop_while (fun x => negb (py_isspace x)) (c :: r))). lia.
Qed.

(** The fields that are cut at whitespace are not empty and hold no
    whitespace. *)
Lemma py_split_field (n : nat) (s : ustring) (i : nat) (w : ustring) :
  (i < n)%nat -> py_split n s !! i = Some w ->
  w <> [] /\ forall c, c ∈ w -> py_isspace c = false.
Proof.
  revert s i. induction n as [|n IH]; intros s i Hi; [lia|].
  cbn [py_split]. destruct (drop_while py_isspace s) as [|c r] eqn:Hs; [done|].
  destruct i as [|i].
  - intros [= <-]. pose proof (drop_while_head _ _ _ _ Hs) as Hc.
    cbn [take_while]. rewrite Hc. cbn [negb]. split; [done|].
    intros x [->|Hx]%elem_of_cons; [done|].
    apply take_while_all in Hx. by destruct (py_isspace x).
  - cbn. apply IH. lia.
Qed.

Section HeaderFields.

Context {host : Host}.

(** X11: a header line with fewer than four fields is refused with a
    [ValueError], the empty line among them; a line never has more than
    four.  The key of a line that is accepted is not empty and holds no
    whitespace, and the value is a float or a text. *)
Theorem split_header_line_fields (header_line : bytes) (line : ustring) :
  _str (as_char_p header_line) = Ok (Some line) ->
  (length (py_split 3 line) <= 4)%nat
  /\ (length (py_split 3 line) <> 4%nat ->
      _split_header_line header_line
      = Raise (ValueError (Msg "need more than {} values to unpack"
                               [VInt (Z.of_nat (length (py_split 3 line)))])))
  /\ (forall key v, _split_header_line header_line = Ok (key, v) ->
        py_split 3 line !! 1%nat = Some key
        /\ key <> []
        /\ (forall c, c ∈ key -> py_isspace c = false)
        /\ ((exists d, v = VFloat d) \/ (exists s, v = VStr s))).
Proof.
  intros Hline. pose proof (py_split_length 3 line) as Hlen.
  split; [done|]. unfold _split_header_line. rewrite Hline.
  cbn [mbind result_bind]. split.
  - intros Hne.
    destruct (py_split 3 line) as [|f0 [|f1 [|f2 [|f3 [|f4 fs]]]]];
      cbn in *; try done; lia.
  - intros key v Hres.
    destruct (py_split 3 line) as [|f0 [|f1 [|f2 [|f3 [|f4 fs]]]]] eqn:Hsplit;
      try done.
    assert (key = f1 /\ ((exists d, v = VFloat d) \/ (exists s, v = VStr s)))
      as [-> Hv].
    { destruct (ustring_eqb f2 (u "%le")).
      - destruct (py_float f3) as [d|]; [|done]. injection Hres as <- <-.
        split; [done|]. left. by exists d.
      - destruct (bool_decide _); injection Hres as <- <-;
          (split; [done|]; right; by eexists). }
    split; [done|].
    destruct (py_split_field 3 line 1 f1) as [Hne Hws];
      [lia|by rewrite Hsplit|].
    done.
Qed.

End HeaderFields.

Lemma split_header_line_fields_witness :
  @_split_header_line host_cython3 (u "@ NAME")
  = Raise (ValueError (Msg "need more than {} values to unpack" [VInt 2]))
  /\ @_split_header_line host_cython3 []
     = Raise (ValueError (Msg "need more than {} values to unpack" [VInt 0])).
Proof.
  split.
  - apply (@split_header_line_fields host_cython3 (u "@ NAME") (u "@ NAME")
             eq_refl).
    by vm_compute.
  - apply (@split_header_line_fields host_cython3 [] [] eq_refl). by vm_compute.
Defined.

(** ** Mappings built by assignment *)

Section Assignments.

Context {K : Type} `{Countable K} {V : Type}.

#[local] Abbreviation assign :=
  (fun (m : gmap K V) (kv : K * V) => <[kv.1 := kv.2]> m).

Lemma foldl_assign_other (kvs : list (K * V)) (acc : gmap K V) (k : K) :
  (forall (j : nat) kv, kvs !! j = Some kv -> kv.1 <> k) ->
  foldl assign acc kvs !! k = acc !! k.
Proof.
  revert acc. induction kvs as [|kv kvs IH]; intros acc Hk; [done|].
  cbn. rewrite IH.
  - apply lookup_insert_ne. apply (Hk 0%nat kv eq_refl).
  - intros j kv' Hj. apply (Hk (S j) kv' Hj).
Qed.

Lemma foldl_assign_last (kvs : list (K * V)) (acc : gmap K V) (i : nat)
    (k : K) (v : V) :
  kvs !! i = Some (k, v) ->
  (forall (j : nat) kv, (i < j)%nat -> kvs !! j = Some kv -> kv.1 <> k) ->
  foldl assign acc kvs !! k = Some v.
Proof.
  revert acc i. induction kvs as [|kv kvs IH]; intros acc i Hi Hlast; [done|].
  destruct i as [|i]; cbn in *.
  - injection Hi as ->. rewrite foldl_assign_other.
    + apply lookup_insert_eq.
    + intros j kv' Hj. apply (Hlast (S j) kv'); [lia|done].
  - apply (IH _ i Hi). intros j kv' Hij Hj.
    apply (Hlast (S j) kv'); [lia|done].
Qed.

Lemma foldl_assign_inv (kvs : list (K * V)) (acc : gmap K V) (k : K) (v : V) :
  foldl assign acc kvs !! k = Some v ->
  acc !! k = Some v \/ exists i : nat, kvs !! i = Some (k, v).
Proof.
  revert acc. induction kvs as [|[k' v'] kvs IH]; intros acc; [by left|].
  cbn. intros [Hacc|[i Hi]]%IH.
  - destruct (decide (k' = k)) as [->|Hne].
    + rewrite lookup_insert_eq in Hacc. injection Hacc as ->.
      right. by exists 0%nat.
    + rewrite lookup_insert_ne in Hacc by done. by left.
  - right. by exists (S i).
Qed.

Lemma foldl_assign_size (kvs : list (K * V)) (acc : gmap K V) :
  (size (foldl assign acc kvs) <= size acc + length kvs)%nat.
Proof.
  revert acc. induction kvs as [|kv kvs IH]; intros acc; cbn; [lia|].
  specialize (IH (<[kv.1:=kv.2]> acc)).
  pose proof (map_size_insert kv.1 kv.2 acc) as Hsize.
  destruct (acc !! kv.1); cbn [id] in Hsize; unfold id in *; lia.
Qed.

Lemma foldl_assign_size_distinct (kvs : list (K * V)) (acc : gmap K V) :
  NoDup (kvs.*1) -> (forall k, k ∈ kvs.*1 -> acc !! k = None) ->
  size (foldl assign acc kvs) = (size acc + length kvs)%nat.
Proof.
  revert acc. induction kvs as [|[k v] kvs IH]; intros acc Hnd Hfresh; cbn;
    [lia|].
  cbn in Hnd. apply NoDup_cons in Hnd as [Hk Hnd].
  rewrite IH; [|done|].
  - rewrite map_size_insert, (Hfresh k); [cbn [length]; lia|].
    cbn. apply list_elem_of_here.
  - intros k' Hk'. rewrite lookup_insert_ne by (intros ->; done).
    apply Hfresh. cbn. by apply list_elem_of_further.
Qed.

End Assignments.

Section Mappings.

Context {clib : Clib} {host : Host}.

Lemma parse_command_items (cmd : command)
    (kvs : list (option ustring * value)) :
  collect (_parse_command_item cmd) (xrange (cpl_curr (cmd_par cmd))) = Ok kvs ->
  length kvs = Z.to_nat (cpl_curr (cmd_par cmd))
  /\ forall (i : nat) kv, kvs !! i = Some kv ->
       Z.of_nat i < cpl_curr (cmd_par cmd)
       /\ exists par, cpl_parameters (cmd_par cmd) !! i = Some par
            /\ _str (par_name par) = Ok kv.1
            /\ _get_param_value par = Ok kv.2.
Proof.
  intros Hkvs. destruct (collect_ok _ _ _ Hkvs) as [Hlen Hnth].
  rewrite length_seqZ in Hlen. split; [done|]. intros i kv Hi.
  assert (Z.of_nat i < cpl_curr (cmd_par cmd)) as Hin
    by (apply lookup_lt_Some in Hi; lia).
  split; [done|].
  destruct (Hnth i (Z.of_nat i)) as (kv' & Hdec & Hkv').
  { rewrite lookup_seqZ. lia. }
  assert (kv' = kv) as -> by congruence.
  unfold _parse_command_item in Hdec. rewrite c_index_lookup in Hdec.
  destruct (cpl_parameters (cmd_par cmd) !! i) as [par|]; [cbn in Hdec|done].
  exists par. split; [done|].
  destruct (_str (par_name par)) as [name|]; [cbn in Hdec|done].
  destruct (_get_param_value par) as [v|]; [cbn in Hdec|done].
  by injection Hdec as <-.
Qed.

(** X12: the mapping [_parse_command] returns has at most as many keys as
    the command counts parameters, and exactly as many when no two
    parameters have the same name; a count that is not positive gives the
    empty mapping. *)
Theorem parse_command_size (cmd : command) :
  let n := cpl_curr (cmd_par cmd) in
  let ps := cpl_parameters (cmd_par cmd) in
  (n <= 0 -> _parse_command cmd = Ok ∅)
  /\ forall m, _parse_command cmd = Ok m ->
       (size m <= Z.to_nat n)%nat
       /\ ((forall (i j : nat) par par',
              i <> j -> Z.of_nat i < n -> Z.of_nat j < n ->
              ps !! i = Some par -> ps !! j = Some par' ->
              _str (par_name par) <> _str (par_name par')) ->
           size m = Z.to_nat n).
Proof.
  intros n ps. unfold _parse_command. fold n. split.
  - intros Hn. by rewrite (xrange_nonpos n Hn).
  - intros m. rewrite parse_command_fold.
    destruct (collect _ (xrange n)) as [kvs|] eqn:Hkvs; [|done].
    intros [= <-].
    destruct (parse_command_items cmd kvs Hkvs) as [Hlen Hitems].
    fold n ps in Hlen, Hitems. split.
    + pose proof (foldl_assign_size kvs (∅ : py_dict)) as Hsize.
      rewrite map_size_empty in Hsize. lia.
    + intros Hdistinct.
      rewrite (foldl_assign_size_distinct kvs (∅ : py_dict)).
      * rewrite map_size_empty. lia.
      * apply NoDup_alt. intros i j k Hi Hj.
        rewrite list_lookup_fmap in Hi, Hj.
        destruct (kvs !! i) as [kvi|] eqn:Hkvi; [|done].
        destruct (kvs !! j) as [kvj|] eqn:Hkvj; [|done].
        cbn in Hi, Hj.
        destruct (Hitems i kvi Hkvi) as (Hin & pi & Hpi & Hni & _).
        destruct (Hitems j kvj Hkvj) as (Hjn & pj & Hpj & Hnj & _).
        destruct (decide (i = j)) as [|Hne]; [done|].
        destruct (Hdistinct i j pi pj Hne Hin Hjn Hpi Hpj). congruence.
      * intros k _. apply lookup_empty.
Qed.

Lemma parse_command_fails (cmd : command) (i : nat) (par : command_parameter) :
  Z.of_nat i < cpl_curr (cmd_par cmd) ->
  cpl_parameters (cmd_par cmd) !! i = Some par ->
  is_ok (_get_param_value par) = false ->
  is_ok (_parse_command cmd) = false.
Proof.
  intros Hi Hpar Hbad. unfold _parse_command. rewrite parse_command_fold.
  assert (is_ok (collect (_parse_command_item cmd)
                   (xrange (cpl_curr (cmd_par cmd)))) = false) as Hfail;
    [|by destruct (collect _ _)].
  apply (collect_raise _ _ (Z.of_nat i)).
  - apply elem_of_seqZ_0. lia.
  - unfold _parse_command_item. rewrite c_index_lookup, Hpar.
    cbn [mbind result_bind]. destruct (_str (par_name par)); [cbn|done].
    by destruct (_get_param_value par).
Qed.

(** X13: nothing partial is returned.  When one parameter of the command
    of one element does not decode, the command does not decode, the node
    of the element does not, and the traversal of a sequence that goes
    through the node returns no list. *)
Theorem undecodable_parameter_fails_traversal (g : globals)
    (sequence_name : option ustring) (seq : sequence) (i j : nat)
    (node : node) (elem : element) (par : command_parameter) :
  _find_sequence g sequence_name = Ok (Some seq) ->
  Z.of_nat i < seq_nodes_curr seq ->
  seq_nodes_nodes seq !! i = Some node ->
  node_p_elem node = Some elem ->
  Z.of_nat j < cpl_curr (cmd_par (elem_def_ elem)) ->
  cpl_parameters (cmd_par (elem_def_ elem)) !! j = Some par ->
  is_ok (_get_param_value par) = false ->
  is_ok (_parse_command (elem_def_ elem)) = false
  /\ is_ok (_get_node node) = false
  /\ is_ok (get_elements g sequence_name) = false.
Proof.
  intros Hfind Hi Hnode Helem Hj Hpar Hbad.
  pose proof (parse_command_fails _ j par Hj Hpar Hbad) as Hcmd.
  assert (is_ok (_get_node node) = false) as Hn.
  { unfold _get_node, _get_element. rewrite Helem.
    by destruct (_parse_command (elem_def_ elem)). }
  split; [done|]. split; [done|].
  unfold get_elements. rewrite Hfind. cbn [mbind result_bind deref].
  by apply (collect_nodes_empty _ _ i node).
Qed.

(** X14: the mapping returned for an element node holds the name and the
    length of the element and the base type of the node under [name],
    [length] and [type], whatever the element's command holds under these
    names; every other key has the value of the command's parameter. *)
Theorem element_node_fields (node : node) (elem : element) (d : py_dict) :
  node_p_elem node = Some elem ->
  _get_node node = Ok d ->
  exists data name type,
    _parse_command (elem_def_ elem) = Ok data
    /\ _str (elem_name elem) = Ok name
    /\ _str (node_base_name node) = Ok type
    /\ d !! Some (u "name") = Some (of_str name)
    /\ d !! Some (u "length") = Some (VFloat (elem_length elem))
    /\ d !! Some (u "type") = Some (of_str type)
    /\ (forall k, k ∉ [Some (u "name"); Some (u "length"); Some (u "type")] ->
          d !! k = data !! k)
    /\ dom d = dom data ∪ {[Some (u "name"); Some (u "length"); Some (u "type")]}.
Proof.
  intros Helem. unfold _get_node, _get_element. rewrite Helem.
  destruct (_parse_command (elem_def_ elem)) as [data|]; [|done].
  cbn [mbind result_bind].
  destruct (_str (elem_name elem)) as [name|]; [|done].
  cbn [mbind result_bind].
  destruct (_str (node_base_name node)) as [type|]; [|done].
  cbn [mbind result_bind]. intros [= <-].
  exists data, name, type. split; [done|]. split; [done|]. split; [done|].
  split; [|split; [|split; [|split]]].
  - rewrite lookup_insert_ne by (vm_compute; discriminate).
    rewrite lookup_insert_ne by (vm_compute; discriminate).
    apply lookup_insert_eq.
  - rewrite lookup_insert_ne by (vm_compute; discriminate).
    apply lookup_insert_eq.
  - apply lookup_insert_eq.
  - intros k. rewrite !not_elem_of_cons. intros (Hn & Hl & Ht & _).
    by rewrite !lookup_insert_ne.
  - rewrite !dom_insert_L. set_solver.
Qed.

(** X15: [get_table_summary] returns a mapping with at most one entry for
    each header line, built in the order of the lines: a key that occurs
    on several lines has the value of its last line, and every entry
    comes from a line; a count that is not positive gives the empty
    mapping. *)
Theorem table_summary_last_wins (g : globals) (table : option ustring)
    (b : bytes) :
  _cstr table = Ok b ->
  let header := table_get_header g (c_string b) in
  let n := cpa_curr header in
  (n <= 0 -> get_table_summary g table = Ok ∅)
  /\ forall d, get_table_summary g table = Ok d ->
       (size d <= Z.to_nat n)%nat
       /\ (forall (i : nat) p, Z.of_nat i < n -> cpa_p header !! i = Some p ->
             exists line key v,
               p = Some line
               /\ _split_header_line (c_string line) = Ok (key, v)
               /\ ((forall (j : nat) line' key' v',
                      (i < j)%nat -> Z.of_nat j < n ->
                      cpa_p header !! j = Some (Some line') ->
                      _split_header_line (c_string line') = Ok (key', v') ->
                      key' <> key) ->
                   d !! key = Some v))
       /\ (forall key v, d !! key = Some v ->
             exists (i : nat) line,
               Z.of_nat i < n /\ cpa_p header !! i = Some (Some line)
               /\ _split_header_line (c_string line) = Ok (key, v)).
Proof.
  intros Hb header n. unfold get_table_summary. rewrite Hb.
  cbn [mbind result_bind]. fold header. fold n. split.
  - intros Hn. by rewrite (xrange_nonpos n Hn).
  - intros d. set (item := fun i : Z => _).
    destruct (collect item (xrange n)) as [kvs|] eqn:Hkvs; [|done].
    cbn [mbind result_bind]. intros [= <-].
    destruct (collect_ok _ _ _ Hkvs) as [Hlen Hnth].
    rewrite length_seqZ in Hlen.
    assert (forall (i : nat) kv, kvs !! i = Some kv ->
              Z.of_nat i < n
              /\ exists line, cpa_p header !! i = Some (Some line)
                   /\ _split_header_line (c_string line) = Ok kv) as Hitems.
    { intros i kv Hi.
      assert (Z.of_nat i < n) as Hin by (apply lookup_lt_Some in Hi; lia).
      split; [done|].
      destruct (Hnth i (Z.of_nat i)) as (kv' & Hdec & Hkv').
      { rewrite lookup_seqZ. lia. }
      assert (kv' = kv) as -> by congruence.
      subst item. cbn beta in Hdec. rewrite c_index_lookup in Hdec.
      destruct (cpa_p header !! i) as [[line|]|]; [|done|done].
      by exists line. }
    split; [|split].
    + pose proof (foldl_assign_size kvs (∅ : gmap ustring value)) as Hsize.
      rewrite map_size_empty in Hsize. lia.
    + intros i p Hi Hp.
      destruct (lookup_lt_is_Some_2 kvs i) as [[key v] Hkv]; [lia|].
      destruct (Hitems i _ Hkv) as (_ & line & Hline & Hsplit).
      exists line, key, v. split; [congruence|]. split; [done|].
      intros Hlast. apply (foldl_assign_last kvs _ i); [done|].
      intros j [key' v'] Hij Hj. cbn.
      destruct (Hitems j _ Hj) as (Hjn & line' & Hline' & Hsplit').
      by apply (Hlast j line' key' v').
    + intros key v [Hempty|[i Hi]]%foldl_assign_inv; [done|].
      destruct (Hitems i _ Hi) as (Hin & line & Hline & Hsplit).
      by exists i, line.
Qed.

End Mappings.

Lemma parse_command_size_witness :
  exists m, @_parse_command madx cmd_twice = Ok m /\ (size m <= 3)%nat.
Proof.
  destruct (@_parse_command madx cmd_twice) as [m|] eqn:Hm;
    [|discriminate Hm].
  exists m. split; [reflexivity|].
  apply (proj2 (@parse_command_size madx cmd_twice) m Hm).
Defined.

Lemma undecodable_parameter_fails_traversal_witness :
  is_ok (@get_elements madx host_cython3 (globals_of None [seq_odd]) (Some (u "odd")))
  = false.
Proof.
  apply (@undecodable_parameter_fails_traversal madx host_cython3
           (globals_of None [seq_odd]) (Some (u "odd")) seq_odd 1 1
           (Node (Some elem_odd) None (Some (u "marker"))) elem_odd
           (with_type 99 par_blank));
    try reflexivity; cbn; lia.
Defined.

Lemma element_node_fields_witness :
  exists d, @_get_node madx node_shadow = Ok d
    /\ d !! Some (u "name") = Some (VStr (u "q2"))
    /\ d !! Some (u "type") = Some (VStr (u "quadrupole"))
    /\ d !! Some (u "k1") = Some (VFloat (num 3)).
Proof.
  destruct (@_get_node madx node_shadow) as [d|] eqn:Hd; [|discriminate Hd].
  exists d. split; [reflexivity|].
  destruct (@element_node_fields madx node_shadow elem_shadow d eq_refl Hd)
    as (data & name & type & Hdata & Hname & Htype & Hn & _ & Ht & Hrest & _).
  injection Hname as <-. injection Htype as <-.
  split; [exact Hn|]. split; [exact Ht|].
  rewrite Hrest.
  - vm_compute in Hdata. injection Hdata as <-. reflexivity.
  - vm_compute. intros H.
    repeat (apply elem_of_cons in H as [H|H]; [discriminate H|]).
    by apply elem_of_nil in H.
Defined.

Lemma table_summary_last_wins_witness :
  exists d, @get_table_summary madx_header host_cython3 globals_table (Some (u "twiss"))
            = Ok d
    /\ d !! u "NAME" = Some (VStr (u "SUM")).
Proof.
  destruct (@get_table_summary madx_header host_cython3 globals_table (Some (u "twiss")))
    as [d|] eqn:Hd; [|discriminate Hd].
  exists d. split; [reflexivity|].
  destruct (@table_summary_last_wins madx_header host_cython3 globals_table
              (Some (u "twiss")) (u "twiss") eq_refl) as [_ Hlast].
  destruct (Hlast d Hd) as (_ & Hline & _).
  destruct (Hline 2%nat (Some (u "@ NAME %03s " ++ [34] ++ u "SUM" ++ [34])))
    as (line & key & v & Hl & Hsplit & Hwins); [cbn; lia|reflexivity|].
  injection Hl as <-. vm_compute in Hsplit. injection Hsplit as <- <-.
  apply Hwins. intros j line' key' v' Hj Hn. cbn in Hn. lia.
Defined.
